(** * m2h: a Markdown to HTML converter with a table of contents

    A shallow embedding of [m2h.cpp].  Program strings are [string]
    (sequences of 8-bit characters), [int] values are [Z], the
    [std::map<std::string,int>] registry of heading ids is a
    [gmap string Z], vectors are lists.  The scanner state that the C++
    code keeps in local variables of [markdown_to_html] is the record
    [scan_state], and one iteration of its [while (std::getline ...)]
    loop is [process_line].

    The character classification functions are those of the "C" locale
    (the program never installs another one). *)

From Stdlib Require Import ZArith Ascii String Lia.
From stdpp Require Import gmap strings list pretty.

Local Open Scope Z_scope.

(** ** Characters

    [isspace], [isalnum] and [tolower] are the functions of [<cctype>]
    in the "C" locale: a character above 127 is neither white space nor
    alphanumeric, and [tolower] leaves it as it is. *)

(** The double quote and the newline cannot be written inside a literal. *)
Definition dq : string := String "034"%char "".
Definition nl : string := String "010"%char "".

Definition char_code (c : ascii) : N := N_of_ascii c.

Definition in_range (lo hi : N) (c : ascii) : bool :=
  ((lo <=? char_code c) && (char_code c <=? hi))%N.

(** [isspace]: space, and the controls [\t \n \v \f \r]. *)
Definition isspace (c : ascii) : bool :=
  (char_code c =? 32)%N || in_range 9 13 c.

Definition isdigit (c : ascii) : bool := in_range 48 57 c.
Definition isupper (c : ascii) : bool := in_range 65 90 c.
Definition islower (c : ascii) : bool := in_range 97 122 c.
Definition isalnum (c : ascii) : bool := isdigit c || isupper c || islower c.

Definition tolower (c : ascii) : ascii :=
  if isupper c then ascii_of_N (char_code c + 32) else c.

Definition char_eqb (a b : ascii) : bool := Ascii.eqb a b.
Global Arguments char_eqb : simpl never.

(** ** Strings *)

Module Str.

Fixpoint transform (f : ascii → ascii) (s : string) : string :=
  match s with
  | "" => ""
  | String c s' => String (f c) (transform f s')
  end.

(** [std::replace(first, last, old, new)] *)
Definition replace (old new : ascii) (s : string) : string :=
  transform (λ c, if char_eqb c old then new else c) s.

(** the erase / [std::remove_if] idiom: drop the characters for which
    [p] holds *)
Fixpoint remove_if (p : ascii → bool) (s : string) : string :=
  match s with
  | "" => ""
  | String c s' => if p c then remove_if p s' else String c (remove_if p s')
  end.

Definition empty (s : string) : bool :=
  match s with "" => true | _ => false end.

Fixpoint take (n : nat) (s : string) : string :=
  match n, s with
  | S n', String c s' => String c (take n' s')
  | _, _ => ""
  end.

Fixpoint drop (n : nat) (s : string) : string :=
  match n, s with
  | S n', String _ s' => drop n' s'
  | _, _ => s
  end.

Fixpoint starts_with (p s : string) : bool :=
  match p, s with
  | "", _ => true
  | String a p', String b s' => char_eqb a b && starts_with p' s'
  | String _ _, "" => false
  end.

(** first index at which [needle] occurs in [s] *)
Fixpoint find_in (needle s : string) : option nat :=
  if starts_with needle s then Some 0%nat
  else match s with
       | "" => None
       | String _ s' => S <$> find_in needle s'
       end.

(** [s.find(needle, pos)]; [None] is [npos] *)
Definition find (needle s : string) (pos : nat) : option nat :=
  if (String.length s <? pos)%nat then None
  else (λ k, (pos + k)%nat) <$> find_in needle (drop pos s).

(** [s.erase(pos, n)] for [pos <= size] *)
Definition erase (s : string) (pos n : nat) : string :=
  take pos s +:+ drop (pos + n) s.

Fixpoint contains (c : ascii) (s : string) : bool :=
  match s with
  | "" => false
  | String a s' => char_eqb a c || contains c s'
  end.

Fixpoint all (p : ascii → bool) (s : string) : bool :=
  match s with
  | "" => true
  | String a s' => p a && all p s'
  end.

(** [s.back()] and [s.pop_back()] *)
Fixpoint back (s : string) : option ascii :=
  match s with
  | "" => None
  | String c "" => Some c
  | String _ s' => back s'
  end.

Fixpoint pop_back (s : string) : string :=
  match s with
  | "" => ""
  | String _ "" => ""
  | String c s' => String c (pop_back s')
  end.

Fixpoint drop_while (p : ascii → bool) (s : string) : string :=
  match s with
  | "" => ""
  | String c s' => if p c then drop_while p s' else s
  end.

(** the longest prefix of characters satisfying [p], and what follows *)
Fixpoint span (p : ascii → bool) (s : string) : string * string :=
  match s with
  | "" => ("", "")
  | String c s' =>
      if p c then let '(a, b) := span p s' in (String c a, b) else ("", s)
  end.

Fixpoint concat (l : list string) : string :=
  match l with
  | [] => ""
  | s :: l' => s +:+ concat l'
  end.

Fixpoint replicate (n : nat) (s : string) : string :=
  match n with
  | O => ""
  | S n' => s +:+ replicate n' s
  end.

End Str.

(** ** Heading identifiers *)

(** [sanitize_id]: the three passes of the source, in order. *)
Definition sanitize_id (text : string) : string :=
  let id := Str.transform tolower text in
  let id := Str.replace " " "-" id in
  Str.remove_if
    (λ c, negb (isalnum c || char_eqb c "-" || char_eqb c "_")) id.

(** [generate_unique_id]: the registry is passed by reference in the
    source, here it is returned next to the identifier.  The counters
    are [int] in the source; they stay below the number of headings
    ([scan_counts_bounded]), far from the end of the range. *)
Definition generate_unique_id (base_id : string) (id_counts : gmap string Z)
  : string * gmap string Z :=
  let id := sanitize_id base_id in
  match id_counts !! id with
  | Some c =>
      let count := c + 1 in
      (id +:+ "-" +:+ pretty count, <[id := count]> id_counts)
  | None => (id, <[id := 0]> id_counts)
  end.

(** [clean_header_text]: the [find] / [erase] loop.  Every iteration
    erases two characters, so [length text] iterations are enough:
    [clean_loop_strip] below shows that the loop leaves through its
    condition for any larger bound. *)
Fixpoint clean_loop (fuel : nat) (text : string) (pos : nat) : string :=
  match fuel with
  | O => text
  | S fuel' =>
      match Str.find "**" text pos with
      | Some p => clean_loop fuel' (Str.erase text p 2) p
      | None => text
      end
  end.

Definition clean_header_text (text : string) : string :=
  clean_loop (String.length text) text 0.

Definition process_table_line (line : string) : string :=
  let processed :=
    match line with
    | String "|" rest => rest
    | _ => line
    end in
  match Str.back processed with
  | Some "|"%char => Str.pop_back processed
  | _ => processed
  end.

(** ** Regular expressions

    The patterns the scanner hands to [std::regex_match] (which accepts
    only a match of the whole line, so the anchors [^] and [$] add
    nothing) are regular; they are matched here by Brzozowski
    derivatives. *)

Inductive regex : Type :=
| Void
| Eps
| Class (p : ascii → bool)
| Cat (r1 r2 : regex)
| Alt (r1 r2 : regex)
| Star (r : regex).

Fixpoint nullable (r : regex) : bool :=
  match r with
  | Void => false
  | Eps => true
  | Class _ => false
  | Cat r1 r2 => nullable r1 && nullable r2
  | Alt r1 r2 => nullable r1 || nullable r2
  | Star _ => true
  end.

Fixpoint deriv (c : ascii) (r : regex) : regex :=
  match r with
  | Void => Void
  | Eps => Void
  | Class p => if p c then Eps else Void
  | Cat r1 r2 =>
      Alt (Cat (deriv c r1) r2) (if nullable r1 then deriv c r2 else Void)
  | Alt r1 r2 => Alt (deriv c r1) (deriv c r2)
  | Star r1 => Cat (deriv c r1) (Star r1)
  end.

Fixpoint matches (r : regex) (s : string) : bool :=
  match s with
  | "" => nullable r
  | String c s' => matches (deriv c r) s'
  end.

Definition regex_match (line : string) (r : regex) : bool := matches r line.

Definition Plus (r : regex) : regex := Cat r (Star r).
Definition Opt (r : regex) : regex := Alt r Eps.
Definition Lit (c : ascii) : regex := Class (char_eqb c).
Fixpoint Times (n : nat) (r : regex) : regex :=
  match n with
  | O => Eps
  | S n' => Cat r (Times n' r)
  end.

(** [.] matches everything but the line terminators. *)
Definition is_line_terminator (c : ascii) : bool :=
  char_eqb c "010" || char_eqb c "013".
Definition Dot : regex := Class (λ c, negb (is_line_terminator c)).
(** [\s] *)
Definition Space : regex := Class isspace.

(** [^#{n}\s+( .* )]: [n] hashes, white space, the heading text *)
Definition h_regex (n : nat) : regex :=
  Cat (Times n (Lit "#")) (Cat (Plus Space) (Star Dot)).

Definition h1_regex : regex := h_regex 1.
Definition h2_regex : regex := h_regex 2.
Definition h3_regex : regex := h_regex 3.
Definition h4_regex : regex := h_regex 4.
Definition h5_regex : regex := h_regex 5.
Definition h6_regex : regex := h_regex 6.

(** [^```( .* )] *)
Definition code_block_regex : regex := Cat (Times 3 (Lit "`")) (Star Dot).

Definition dash_colon (c : ascii) : bool := char_eqb c "-" || char_eqb c ":".
Definition divider_char (c : ascii) : bool :=
  dash_colon c || isspace c || char_eqb c "|".

(** [^\s*\|?[-:]+\|[-:\s\|]+\|?\s*$] *)
Definition table_divider_regex : regex :=
  Cat (Star Space)
    (Cat (Opt (Lit "|"))
       (Cat (Plus (Class dash_colon))
          (Cat (Lit "|")
             (Cat (Plus (Class divider_char))
                (Cat (Opt (Lit "|")) (Star Space)))))).

Definition rule_char (c : ascii) : bool :=
  char_eqb c "-" || char_eqb c "*" || char_eqb c "_".

(** [^\s*[-*_]{3,}\s*$] *)
Definition horizontal_rule_regex : regex :=
  Cat (Star Space)
    (Cat (Times 3 (Class rule_char))
       (Cat (Star (Class rule_char)) (Star Space))).

(** The sub-match [match[1]] of a heading line: the greedy [\s+] takes
    the whole run of white space after the [n] hashes. *)
Definition heading_capture (n : nat) (line : string) : string :=
  Str.drop_while isspace (Str.drop n line).

(** The sub-match [match[1]] of a fence line: what follows the three
    backticks. *)
Definition code_block_capture (line : string) : string := Str.drop 3 line.

(** ** Inline formatting: [std::regex_replace]

    Each inline pattern is an opening delimiter, a non-empty run of
    characters different from one stop character, and a closing
    delimiter.  The run is greedy and cannot give characters back (the
    closing delimiter starts with the stop character), so a match at a
    position is unique. *)
Definition bracketed (opn : string) (stop : ascii) (cls : string) (s : string)
  : option (string * string) :=
  if Str.starts_with opn s then
    let '(run, rest) :=
      Str.span (λ c, negb (char_eqb c stop)) (Str.drop (String.length opn) s) in
    if Str.empty run then None
    else if Str.starts_with cls rest
         then Some (run, Str.drop (String.length cls) rest)
         else None
  else None.

(** A pattern with its format string: [Some (replacement, rest)] when the
    pattern matches at the start of [s]. *)
Definition pattern := string → option (string * string).

(** [\*\*([^\*]+)\*\*] with [<strong>$1</strong>] *)
Definition bold_regex : pattern := λ s,
  '(c, rest) ← bracketed "**" "*" "**" s;
  Some ("<strong>" +:+ c +:+ "</strong>", rest).

(** [\*([^\*]+)\*] with [<em>$1</em>] *)
Definition italic_regex : pattern := λ s,
  '(c, rest) ← bracketed "*" "*" "*" s;
  Some ("<em>" +:+ c +:+ "</em>", rest).

(** [`([^`]+)`] with [<code>$1</code>] *)
Definition inline_code_regex : pattern := λ s,
  '(c, rest) ← bracketed "`" "`" "`" s;
  Some ("<code>" +:+ c +:+ "</code>", rest).

(** [\[([^\]]+)\]\(([^\)]+)\)] with [<a href="$2">$1</a>] *)
Definition link_regex : pattern := λ s,
  '(t, rest) ← bracketed "[" "]" "]" s;
  '(u, rest') ← bracketed "(" ")" ")" rest;
  Some ("<a href=" +:+ dq +:+ u +:+ dq +:+ ">" +:+ t +:+ "</a>", rest').

(** [std::regex_replace]: every match, leftmost first, is replaced and
    the search resumes after it.  [skip] counts the characters of the
    current match that are still to be passed over. *)
Fixpoint regex_replace_from (p : pattern) (skip : nat) (s : string) : string :=
  match s with
  | "" => ""
  | String c s' =>
      match skip with
      | S k => regex_replace_from p k s'
      | O =>
          match p s with
          | Some (out, rest) =>
              out +:+
              regex_replace_from p
                (String.length s - String.length rest - 1)%nat s'
          | None => String c (regex_replace_from p 0 s')
          end
      end
  end.

Definition regex_replace (s : string) (p : pattern) : string :=
  regex_replace_from p 0 s.

(** ** Reading lines: [std::getline]

    A stream is the text still to be read.  [getline] fails when nothing
    is left; otherwise it extracts up to the delimiter, which it
    consumes and drops. *)
Fixpoint getline_chars (delim : ascii) (s : string) : string * string :=
  match s with
  | "" => ("", "")
  | String c s' =>
      if char_eqb c delim then ("", s')
      else let '(l, r) := getline_chars delim s' in (String c l, r)
  end.

Definition getline (delim : ascii) (stream : string) : option (string * string) :=
  if Str.empty stream then None else Some (getline_chars delim stream).

(** [while (std::getline(stream, x, delim))]: the values of [x]. *)
Fixpoint getlines_loop (fuel : nat) (delim : ascii) (stream : string)
  : list string :=
  match fuel with
  | O => []
  | S fuel' =>
      match getline delim stream with
      | None => []
      | Some (x, rest) => x :: getlines_loop fuel' delim rest
      end
  end.

Definition getlines (delim : ascii) (stream : string) : list string :=
  getlines_loop (S (String.length stream)) delim stream.

(** ** The scanner: [markdown_to_html] *)

Record TocEntry : Type := mkTocEntry {
  level : Z;
  text : string;
  id : string;
}.

(** The local variables of [markdown_to_html] that live across lines,
    with the output string and the [toc] vector it appends to. *)
Record scan_state : Type := mkState {
  html : string;
  toc : list TocEntry;
  in_code_block : bool;
  in_table : bool;
  code_lang : string;
  table_rows : list (list string);
  id_counts : gmap string Z;
}.

(** [html += s] *)
Definition emit (st : scan_state) (s : string) : scan_state :=
  mkState (html st +:+ s) (toc st) (in_code_block st) (in_table st)
    (code_lang st) (table_rows st) (id_counts st).

Definition is_blank (c : ascii) : bool := char_eqb c " " || char_eqb c "009".

(** [cell.erase(cell.find_last_not_of(" \t") + 1)] *)
Fixpoint rtrim (s : string) : string :=
  match s with
  | "" => ""
  | String c s' =>
      let r := rtrim s' in
      if Str.empty r && is_blank c then "" else String c r
  end.

(** [cell.erase(0, cell.find_first_not_of(" \t"))], then the right trim *)
Definition trim (s : string) : string := rtrim (Str.drop_while is_blank s).

Definition format_cell (cell : string) : string :=
  let cell := trim cell in
  let cell := regex_replace cell bold_regex in
  let cell := regex_replace cell italic_regex in
  let cell := regex_replace cell inline_code_regex in
  regex_replace cell link_regex.

(** The cells of a pipe line (the body of the [else if] at line 159). *)
Definition row_cells (line : string) : list string :=
  format_cell <$> getlines "|" (process_table_line line).

(** The loops that render the buffered rows; the source has the same text
    twice, at lines 181-192 and at lines 252-263. *)
Fixpoint cells_loop (cells : list string) (first_row : bool) (out : string)
  : string :=
  match cells with
  | [] => out
  | cell :: cells' =>
      let tag := if first_row then "th" else "td" in
      cells_loop cells' first_row
        (out +:+ ("<" +:+ tag +:+ ">" +:+ cell +:+ "</" +:+ tag +:+ ">"))
  end.

Fixpoint rows_loop (rows : list (list string)) (first_row : bool) (out : string)
  : string :=
  match rows with
  | [] => out
  | row :: rows' =>
      match row with
      | [] => rows_loop rows' first_row out
      | _ =>
          let out := out +:+ "<tr>" in
          let out := cells_loop row first_row out in
          let out := out +:+ ("</tr>" +:+ nl) in
          rows_loop rows' false out
      end
  end.

Definition table_block (rows : list (list string)) (out : string) : string :=
  let out := out +:+ ("<table>" +:+ nl) in
  let out := rows_loop rows true out in
  out +:+ ("</table>" +:+ nl).

(** The flush in the middle of the document (lines 179-196). *)
Definition flush_table (st : scan_state) : scan_state :=
  mkState (table_block (table_rows st) (html st)) (toc st) (in_code_block st)
    false (code_lang st) [] (id_counts st).

(** The flush after the last line (lines 250-265). *)
Definition flush_table_at_end (st : scan_state) : string :=
  if in_table st && negb (bool_decide (table_rows st = []))
  then table_block (table_rows st) (html st)
  else html st.

Definition heading_html (lvl : Z) (i t : string) : string :=
  "<h" +:+ pretty lvl +:+ " id=" +:+ dq +:+ i +:+ dq +:+ ">" +:+ t +:+
  "</h" +:+ pretty lvl +:+ ">" +:+ nl.

(** One branch of the heading chain (lines 199-235), for level [n]. *)
Definition emit_heading (st : scan_state) (n : nat) (line : string) : scan_state :=
  let t := clean_header_text (heading_capture n line) in
  let '(i, counts) := generate_unique_id t (id_counts st) in
  mkState (html st +:+ heading_html (Z.of_nat n) i t)
    (toc st ++ [mkTocEntry (Z.of_nat n) t i])
    (in_code_block st) (in_table st) (code_lang st) (table_rows st) counts.

(** Lines 238-246. *)
Definition paragraph (st : scan_state) (line : string) : scan_state :=
  let processed_line := line in
  let processed_line := regex_replace processed_line link_regex in
  let processed_line := regex_replace processed_line bold_regex in
  let processed_line := regex_replace processed_line italic_regex in
  let processed_line := regex_replace processed_line inline_code_regex in
  if Str.empty processed_line then st
  else emit st ("<p>" +:+ processed_line +:+ "</p>" +:+ nl).

Definition heading_stage (st : scan_state) (line : string) : scan_state :=
  if regex_match line h1_regex then emit_heading st 1 line
  else if regex_match line h2_regex then emit_heading st 2 line
  else if regex_match line h3_regex then emit_heading st 3 line
  else if regex_match line h4_regex then emit_heading st 4 line
  else if regex_match line h5_regex then emit_heading st 5 line
  else if regex_match line h6_regex then emit_heading st 6 line
  else paragraph st line.

(** Lines 154-196: divider, pipe line, or flush of an active table. *)
Definition table_stage (st : scan_state) (line : string) : scan_state :=
  if regex_match line table_divider_regex then
    if negb (in_table st) && negb (bool_decide (table_rows st = []))
    then mkState (html st) (toc st) (in_code_block st) true (code_lang st)
           (table_rows st) (id_counts st)
    else heading_stage st line
  else if Str.contains "|" line then
    mkState (html st) (toc st) (in_code_block st) (in_table st) (code_lang st)
      (table_rows st ++ [row_cells line]) (id_counts st)
  else if in_table st then heading_stage (flush_table st) line
  else heading_stage st line.

(** Lines 135-146. *)
Definition fence (st : scan_state) (line : string) : scan_state :=
  if negb (in_code_block st) then
    let lang := code_block_capture line in
    mkState
      (html st +:+
       ("<pre><code" +:+
        (if Str.empty lang then ""
         else " class=" +:+ dq +:+ "language-" +:+ lang +:+ dq) +:+
        ">" +:+ nl))
      (toc st) true (in_table st) lang (table_rows st) (id_counts st)
  else
    mkState (html st +:+ ("</code></pre>" +:+ nl)) (toc st) false (in_table st)
      (code_lang st) (table_rows st) (id_counts st).

(** The body of the [while (std::getline(iss, line))] loop. *)
Definition process_line (st : scan_state) (line : string) : scan_state :=
  if Str.empty line then st
  else if regex_match line horizontal_rule_regex then emit st ("<hr>" +:+ nl)
  else if regex_match line code_block_regex then fence st line
  else if in_code_block st then emit st (line +:+ nl)
  else table_stage st line.

Definition initial_state (toc0 : list TocEntry) : scan_state :=
  mkState "" toc0 false false "" [] ∅.

Definition scan (lines : list string) (st : scan_state) : scan_state :=
  foldl process_line st lines.

(** [markdown_to_html(markdown, toc)]: the returned string and the vector
    [toc] after the call. *)
Definition markdown_to_html (markdown : string) (toc0 : list TocEntry)
  : string * list TocEntry :=
  let st := scan (getlines "010" markdown) (initial_state toc0) in
  (flush_table_at_end st, toc st).

(** ** The table of contents: [generate_toc_html] *)

Fixpoint open_levels (fuel : nat) (out : string) (current_level lvl : Z)
  : string * Z :=
  match fuel with
  | O => (out, current_level)
  | S fuel' =>
      if current_level <? lvl
      then open_levels fuel' (out +:+ ("<ul>" +:+ nl)) (current_level + 1) lvl
      else (out, current_level)
  end.

Fixpoint close_levels (fuel : nat) (out : string) (current_level lvl : Z)
  : string * Z :=
  match fuel with
  | O => (out, current_level)
  | S fuel' =>
      if current_level >? lvl
      then close_levels fuel' (out +:+ ("</ul>" +:+ nl)) (current_level - 1) lvl
      else (out, current_level)
  end.

Definition toc_item (entry : TocEntry) : string :=
  "<li><a href=" +:+ dq +:+ "#" +:+ id entry +:+ dq +:+ " data-id=" +:+ dq +:+
  id entry +:+ dq +:+ ">" +:+ text entry +:+ "</a></li>" +:+ nl.

(** The body of the [for] loop; each [while] gets as many iterations as
    the distance it has to cover. *)
Definition toc_entry (acc : string * Z) (entry : TocEntry) : string * Z :=
  let '(out, current_level) := acc in
  let '(out, current_level) :=
    open_levels (Z.to_nat (level entry - current_level)) out current_level
      (level entry) in
  let '(out, current_level) :=
    close_levels (Z.to_nat (current_level - level entry)) out current_level
      (level entry) in
  (out +:+ toc_item entry, current_level).

Definition toc_header : string :=
  "<div class=" +:+ dq +:+ "toc" +:+ dq +:+ ">" +:+ nl +:+
  "<h2>Table of Contents</h2>" +:+ nl +:+ "<ul>" +:+ nl.

Definition toc_footer : string := "</ul>" +:+ nl +:+ "</div>" +:+ nl.

Definition generate_toc_html (entries : list TocEntry) : string :=
  match entries with
  | [] => ""
  | _ =>
      let '(out, current_level) := foldl toc_entry (toc_header, 1) entries in
      let '(out, _) :=
        close_levels (Z.to_nat (current_level - 1)) out current_level 1 in
      out +:+ toc_footer
  end.

(** ** The page: [generate_html_template] and the title chosen by [main] *)

Definition generate_html_template (title toc_html content_html : string)
  : string :=
  "<!DOCTYPE html>" +:+ nl +:+
  "<html lang=" +:+ dq +:+ "en" +:+ dq +:+ ">" +:+ nl +:+
  "<head>" +:+ nl +:+
  "    <meta charset=" +:+ dq +:+ "UTF-8" +:+ dq +:+ ">" +:+ nl +:+
  "    <meta name=" +:+ dq +:+ "viewport" +:+ dq +:+ " content=" +:+ dq +:+
  "width=device-width, initial-scale=1.0" +:+ dq +:+ ">" +:+ nl +:+
  "    <title>" +:+ title +:+ "</title>" +:+ nl +:+
  "    <link rel=" +:+ dq +:+ "stylesheet" +:+ dq +:+ " href=" +:+ dq +:+
  "styles.css" +:+ dq +:+ ">" +:+ nl +:+
  "</head>" +:+ nl +:+
  "<body>" +:+ nl +:+
  toc_html +:+ nl +:+
  "    <div class=" +:+ dq +:+ "content" +:+ dq +:+ ">" +:+ nl +:+
  content_html +:+ nl +:+
  "    </div>" +:+ nl +:+
  "    <script src=" +:+ dq +:+ "script.js" +:+ dq +:+ "></script>" +:+ nl +:+
  "</body>" +:+ nl +:+
  "</html>" +:+ nl.

(** [toc.empty() ? "Document" : toc[0].text] *)
Definition page_title (entries : list TocEntry) : string :=
  match entries with
  | [] => "Document"
  | entry :: _ => text entry
  end.

(** Lines 586-594 of [main]: from the text of the input file to the text
    of the output file. *)
Definition render_page (markdown_content : string) : string :=
  let '(html_content, entries) := markdown_to_html markdown_content [] in
  let toc_html := generate_toc_html entries in
  generate_html_template (page_title entries) toc_html html_content.

(** ** The command line: [show_help], [parse_args], [main] *)

(** [show_help]: the text it writes to [std::cout]. *)
Definition show_help : string :=
  "Uso: m2h -m archivo.md -o salida.html" +:+ nl +:+
  "Convierte archivos Markdown a HTML con tabla de contenidos" +:+ nl +:+ nl +:+
  "Opciones:" +:+ nl +:+
  "  -m, --markdown <archivo>  Archivo Markdown de entrada" +:+ nl +:+
  "  -o, --output <archivo>    Archivo HTML de salida" +:+ nl +:+
  "  -h, --help                Muestra este mensaje de ayuda" +:+ nl.

Definition missing_paths_error : string :=
  "Error: Se requieren tanto el archivo de entrada como el de salida" +:+ nl.

Definition str_eqb (a b : string) : bool := bool_decide (a = b).

(** The [for] loop of [parse_args] over [argv[i..]], on the two paths of
    the caller, which it assigns in place: whether the loop ran to its
    end ([false] when it returned at [-h] / [--help]) and the two paths
    as they are when it stops. *)
Fixpoint parse_loop (args : list string) (markdown_path output_path : string)
  : bool * string * string :=
  match args with
  | [] => (true, markdown_path, output_path)
  | arg :: rest =>
      if str_eqb arg "-h" || str_eqb arg "--help"
      then (false, markdown_path, output_path)
      else
        match rest with
        | value :: rest' =>
            if str_eqb arg "-m" || str_eqb arg "--markdown"
            then parse_loop rest' value output_path
            else if str_eqb arg "-o" || str_eqb arg "--output"
            then parse_loop rest' markdown_path value
            else parse_loop rest markdown_path output_path
        | [] => parse_loop rest markdown_path output_path
        end
  end.

(** What a call of [parse_args] leaves: its result, the two paths of
    the caller (empty before the call) and what it wrote to the two
    streams. *)
Record parsed : Type := mkParsed {
  parse_ok : bool;
  markdown_path : string;
  output_path : string;
  parse_cout : string;
  parse_cerr : string;
}.

(** [argv] includes the program name [argv[0]], which the loop skips. *)
Definition parse_args (argv : list string) : parsed :=
  let '(completed, m, o) := parse_loop (tail argv) "" "" in
  if negb completed then mkParsed false m o show_help ""
  else if Str.empty m || Str.empty o
  then mkParsed false m o show_help missing_paths_error
  else mkParsed true m o "" "".

(** What a run does to the file system, in order.  [ReadFile]: the
    whole content of the file was read.  [CreateDirectories]: the call
    was made; [created] is [false] when it threw (directories may have
    been created before it did).  [WriteFile]: the file was opened for
    writing, which creates or empties it, and the content was sent to
    the stream; [stored] tells whether the stream took it all, which the
    source never looks at. *)
Inductive effect : Type :=
| ReadFile (path : string)
| CreateDirectories (path : string) (created : bool)
| WriteFile (path content : string) (stored : bool).

(** How the process ends: [main] returns a status, or an exception that
    nothing catches reaches [std::terminate], which aborts the process. *)
Inductive termination : Type :=
| Exit (code : Z)
| Abort.

(** [cout] and [cerr] hold what the program itself writes to the two
    streams; the diagnostic that the runtime prints when it aborts is
    not part of them. *)
Record outcome : Type := mkOutcome {
  status : termination;
  cout : string;
  cerr : string;
  effects : list effect;
}.

(** The result of opening and reading the input file: the stream could
    not be opened, reading threw (a directory opens and then fails to
    be read), or the whole content. *)
Inductive read_result : Type :=
| OpenFails
| ReadThrows
| Contents (s : string).

(** [operator<<] on a path writes it between double quotes, with a
    backslash before every double quote and backslash. *)
Fixpoint escape_quoted (s : string) : string :=
  match s with
  | "" => ""
  | String c s' =>
      if char_eqb c "034" || char_eqb c "\"
      then String "\" (String c (escape_quoted s'))
      else String c (escape_quoted s')
  end.

Definition quoted (path : string) : string := dq +:+ escape_quoted path +:+ dq.

Section Main.

(** The file system as [main] observes it, and the two fixed assets.
    [fs_exists] is [None] when [fs::exists] throws; [create_directories]
    is [false] when [fs::create_directories] throws; [can_write] tells
    whether the output stream opens; [stores] whether it then takes the
    whole content. *)
Variable fs_exists : string → option bool.
Variable read_file : string → read_result.
Variable create_directories : string → bool.
Variable can_write : string → bool.
Variable stores : string → bool.
Variable parent_path : string → string.
Variable path_append : string → string → string.
Variable generate_css generate_js : string.

Definition write_error (path : string) : string :=
  "Error: Could not open file " +:+ quoted path +:+ " for writing" +:+ nl.

(** Lines 596-615: the three calls of [write_file] and the report. *)
Definition write_files (output_path output_dir page : string)
    (before : list effect) : outcome :=
  if negb (can_write output_path) then
    mkOutcome (Exit 1) "" (write_error output_path) before
  else
    let css_path := path_append output_dir "styles.css" in
    let w1 := [WriteFile output_path page (stores output_path)] in
    if negb (can_write css_path) then
      mkOutcome (Exit 1) "" (write_error css_path) (before ++ w1)
    else
      let js_path := path_append output_dir "script.js" in
      let w2 := [WriteFile css_path generate_css (stores css_path)] in
      if negb (can_write js_path) then
        mkOutcome (Exit 1) "" (write_error js_path) (before ++ w1 ++ w2)
      else
        mkOutcome (Exit 0)
          ("Successfully generated:" +:+ nl +:+
           "  HTML: " +:+ quoted output_path +:+ nl +:+
           "  CSS: " +:+ quoted css_path +:+ nl +:+
           "  JS: " +:+ quoted js_path +:+ nl)
          ""
          (before ++ w1 ++ w2 ++
           [WriteFile js_path generate_js (stores js_path)]).

Definition main (argv : list string) : outcome :=
  let args := parse_args argv in
  if negb (parse_ok args) then
    mkOutcome (Exit 1) (parse_cout args) (parse_cerr args) []
  else
    let markdown_path := markdown_path args in
    let output_path := output_path args in
    match fs_exists markdown_path with
    | None => mkOutcome Abort "" "" []
    | Some false =>
        mkOutcome (Exit 1) ""
          ("Error: El archivo de entrada no existe: " +:+
           quoted markdown_path +:+ nl) []
    | Some true =>
        match read_file markdown_path with
        | OpenFails =>
            mkOutcome (Exit 1) ""
              ("Error: Could not open input file " +:+
               quoted markdown_path +:+ nl) []
        | ReadThrows => mkOutcome Abort "" "" []
        | Contents markdown_content =>
            let page := render_page markdown_content in
            let output_dir := parent_path output_path in
            let read := [ReadFile markdown_path] in
            if Str.empty output_dir
            then write_files output_path output_dir page read
            else
              match fs_exists output_dir with
              | None => mkOutcome Abort "" "" read
              | Some true => write_files output_path output_dir page read
              | Some false =>
                  if create_directories output_dir
                  then write_files output_path output_dir page
                         (read ++ [CreateDirectories output_dir true])
                  else mkOutcome Abort "" ""
                         (read ++ [CreateDirectories output_dir false])
              end
        end
    end.

End Main.

(** ** Definitions used to state the properties *)

(** The characters an identifier can be made of. *)
Definition id_char (c : ascii) : bool :=
  isalnum c || char_eqb c "-" || char_eqb c "_".

(** The identifier of a heading text, one character at a time: lower
    case, space to hyphen, then keep or delete. *)
Fixpoint sanitize_chars (s : string) : string :=
  match s with
  | "" => ""
  | String c s' =>
      let c := tolower c in
      let c := if char_eqb c " " then "-"%char else c in
      if id_char c then String c (sanitize_chars s') else sanitize_chars s'
  end.

(** The identifiers given to a sequence of heading texts, in order, and
    the registry afterwards. *)
Fixpoint assign_ids (texts : list string) (counts : gmap string Z)
  : list string * gmap string Z :=
  match texts with
  | [] => ([], counts)
  | t :: texts' =>
      let '(i, counts) := generate_unique_id t counts in
      let '(ids, counts) := assign_ids texts' counts in
      (i :: ids, counts)
  end.

(** Removal of every [**], by one pass from the left. *)
Fixpoint strip_bold (s : string) : string :=
  match s with
  | "" => ""
  | String c s' =>
      match s' with
      | String c' s'' =>
          if char_eqb c "*" && char_eqb c' "*" then strip_bold s''
          else String c (strip_bold s')
      | "" => s
      end
  end.

(** [void r]: [r] visibly matches nothing. *)
Fixpoint void (r : regex) : bool :=
  match r with
  | Void => true
  | Cat r1 r2 => void r1 || void r2
  | Alt r1 r2 => void r1 && void r2
  | _ => false
  end.

(** [chars_in q r]: every character class of [r] lies inside [q]. *)
Fixpoint chars_in (q : ascii → bool) (r : regex) : Prop :=
  match r with
  | Void | Eps => True
  | Class p => ∀ c, p c = true → q c = true
  | Cat r1 r2 | Alt r1 r2 => chars_in q r1 ∧ chars_in q r2
  | Star r1 => chars_in q r1
  end.

(** [must_hit q r]: every word of [r] has a character in [q]. *)
Fixpoint must_hit (q : ascii → bool) (r : regex) : Prop :=
  match r with
  | Void => True
  | Eps | Star _ => False
  | Class p => ∀ c, p c = true → q c = true
  | Cat r1 r2 => must_hit q r1 ∨ must_hit q r2
  | Alt r1 r2 => must_hit q r1 ∧ must_hit q r2
  end.

(** The characters that can start an inline pattern. *)
Definition inline_opener (c : ascii) : bool :=
  char_eqb c "*" || char_eqb c "`" || char_eqb c "[".

(** The characters of a horizontal-rule line. *)
Definition rule_line_char (c : ascii) : bool := isspace c || rule_char c.

(** A pattern that cannot match at a character that opens no inline
    pattern. *)
Definition inert (p : pattern) : Prop :=
  ∀ c s, inline_opener c = false → p (String c s) = None.

(** The HTML of a table, in the words of the specification: the first
    row that has cells is the header row, the other rows that have cells
    are body rows. *)
Definition cell_html (tag cell : string) : string :=
  "<" +:+ tag +:+ ">" +:+ cell +:+ "</" +:+ tag +:+ ">".

Definition row_html (tag : string) (row : list string) : string :=
  "<tr>" +:+ Str.concat (cell_html tag <$> row) +:+ "</tr>" +:+ nl.

Definition with_cells (rows : list (list string)) : list (list string) :=
  filter (λ row, row ≠ []) rows.

Definition table_html (rows : list (list string)) : string :=
  "<table>" +:+ nl +:+
  match with_cells rows with
  | [] => ""
  | header :: body => row_html "th" header +:+ Str.concat (row_html "td" <$> body)
  end +:+
  "</table>" +:+ nl.

(** The reading in which the first buffered row is the header row
    whatever it holds, and every later row a body row. *)
Definition table_html_first_row (rows : list (list string)) : string :=
  "<table>" +:+ nl +:+
  match rows with
  | [] => ""
  | header :: body => row_html "th" header +:+ Str.concat (row_html "td" <$> body)
  end +:+
  "</table>" +:+ nl.

(** The heading element of a record. *)
Definition heading_element (entry : TocEntry) : string :=
  heading_html (level entry) (id entry) (text entry).

(** [embeds parts s]: the strings [parts] occur in [s], in this order and
    without overlap. *)
Fixpoint embeds (parts : list string) (s : string) : Prop :=
  match parts with
  | [] => True
  | p :: parts' => ∃ pre rest, s = pre +:+ p +:+ rest ∧ embeds parts' rest
  end.

(** The state of the scanner is reachable from the start of a document. *)
Definition reachable (st : scan_state) : Prop :=
  ∃ lines, st = scan lines (initial_state []).

(** The two shapes of a scanner step: one that leaves the heading
    sequence and the registry alone, and one that appends a heading. *)
Definition quiet_step (st st' : scan_state) : Prop :=
  (∃ x, html st' = html st +:+ x) ∧
  toc st' = toc st ∧ id_counts st' = id_counts st.

Definition heading_step (st st' : scan_state) (line : string) : Prop :=
  ∃ (n : nat) (x : string),
    (1 ≤ n ≤ 6)%nat ∧ regex_match line (h_regex n) = true ∧
    let t := clean_header_text (heading_capture n line) in
    let ic := generate_unique_id t (id_counts st) in
    html st' = html st +:+ x +:+ heading_html (Z.of_nat n) ic.1 t ∧
    toc st' = toc st ++ [mkTocEntry (Z.of_nat n) t ic.1] ∧
    id_counts st' = ic.2.

(** The table of contents as a sequence of nesting moves and items. *)
Inductive toc_token : Type :=
| TocOpen
| TocClose
| TocItem (entry : TocEntry).

(** The text of a move: an opening, a closing, or the list item whose
    link points to the identifier of the heading and shows its text. *)
Definition render_token (t : toc_token) : string :=
  match t with
  | TocOpen => "<ul>" +:+ nl
  | TocClose => "</ul>" +:+ nl
  | TocItem entry =>
      "<li><a href=" +:+ dq +:+ "#" +:+ id entry +:+ dq +:+
      " data-id=" +:+ dq +:+ id entry +:+ dq +:+ ">" +:+ text entry +:+
      "</a></li>" +:+ nl
  end.

Definition render_tokens (ts : list toc_token) : string :=
  Str.concat (render_token <$> ts).

(** From depth [depth]: for each heading, one opening per unit while the
    depth is below its level, one closing per unit while it is above,
    then the item; after the last heading, the closings down to depth 1. *)
Fixpoint toc_tokens (depth : Z) (entries : list TocEntry) : list toc_token :=
  match entries with
  | [] => replicate (Z.to_nat (depth - 1)) TocClose
  | entry :: entries' =>
      replicate (Z.to_nat (level entry - depth)) TocOpen ++
      replicate (Z.to_nat (depth - level entry)) TocClose ++
      TocItem entry :: toc_tokens (level entry) entries'
  end.

(** The depth after a sequence of moves. *)
Fixpoint depth_after (depth : Z) (ts : list toc_token) : Z :=
  match ts with
  | [] => depth
  | TocOpen :: ts' => depth_after (depth + 1) ts'
  | TocClose :: ts' => depth_after (depth - 1) ts'
  | TocItem _ :: ts' => depth_after depth ts'
  end.

(** Every item stands at the depth of its level. *)
Fixpoint tracks (depth : Z) (ts : list toc_token) : Prop :=
  match ts with
  | [] => True
  | TocOpen :: ts' => tracks (depth + 1) ts'
  | TocClose :: ts' => tracks (depth - 1) ts'
  | TocItem entry :: ts' => depth = level entry ∧ tracks depth ts'
  end.



(** An argument equal to the short or the long form of a flag. *)
Definition has_flag (short long : string) (args : list string) : bool :=
  existsb (λ a, str_eqb a short || str_eqb a long) args.

(** The lines of a text, by recursion on the text: what the [getline]
    loop reads. *)
Fixpoint lines_of (delim : ascii) (s : string) : list string :=
  match s with
  | "" => []
  | String c s' =>
      if char_eqb c delim then "" :: lines_of delim s'
      else match lines_of delim s' with
           | [] => [String c ""]
           | l :: ls => String c l :: ls
           end
  end.

(** ** Further definitions used to state properties *)

(** The characters of a sanitized identifier: lower-case letters, digits,
    hyphen and underscore. *)
Definition url_char (c : ascii) : bool :=
  islower c || isdigit c || char_eqb c "-" || char_eqb c "_".

(** The characters of a heading text that leave a trace in its
    identifier. *)
Definition kept_char (c : ascii) : bool :=
  isalnum c || char_eqb c " " || char_eqb c "-" || char_eqb c "_".

Definition starts_blank (s : string) : bool :=
  match s with
  | String c _ => is_blank c
  | "" => false
  end.

Definition ends_blank (s : string) : bool :=
  match Str.back s with
  | Some c => is_blank c
  | None => false
  end.

(** The text made of the given lines, each followed by the delimiter. *)
Definition unlines (delim : ascii) (segs : list string) : string :=
  Str.concat ((λ l, l +:+ String delim "") <$> segs).

(** The text is empty or ends with the delimiter. *)
Definition terminated (delim : ascii) (s : string) : bool :=
  match Str.back s with
  | Some c => char_eqb c delim
  | None => true
  end.

(** The characters that start or make up no special line and open no
    inline pattern. *)
Definition ordinary_char (c : ascii) : bool :=
  negb (char_eqb c "#" || char_eqb c "|" || char_eqb c "`" ||
        char_eqb c "*" || char_eqb c "[" || char_eqb c "-" ||
        char_eqb c "_").

(** A pipe line that is buffered as a table row. *)
Definition row_line (line : string) : Prop :=
  Str.contains "|" line = true ∧
  regex_match line table_divider_regex = false ∧
  regex_match line code_block_regex = false.

(** The text ends with a hyphen followed by at least one digit and by
    digits only: the form of an identifier with a counter. *)
Fixpoint numeric_suffix (s : string) : bool :=
  match s with
  | "" => false
  | String c s' =>
      (char_eqb c "-" && negb (Str.empty s') && Str.all isdigit s') ||
      numeric_suffix s'
  end.

(** The identifiers handed out so far are accounted for in the
    registry: each is a registered base that does not look like an
    identifier with a counter, or a registered base with a counter not
    above the one on record. *)
Definition ids_registered (used : list string) (counts : gmap string Z) : Prop :=
  (∀ b c, counts !! b = Some c → 0 ≤ c) ∧
  ∀ u, u ∈ used →
    (numeric_suffix u = false ∧ is_Some (counts !! u)) ∨
    (∃ b c n, u = b +:+ "-" +:+ pretty n ∧ counts !! b = Some c ∧ 1 ≤ n ≤ c).

(** What holds of every heading record of a document. *)
Definition well_formed_record (e : TocEntry) : Prop :=
  1 ≤ level e ≤ 6 ∧
  Str.find_in "**" (text e) = None ∧
  Str.all url_char (id e) = true ∧
  (id e = sanitize_id (text e) ∨
   ∃ n, 1 ≤ n ∧ id e = sanitize_id (text e) +:+ "-" +:+ pretty n).

(** The depth stays at [lo] or above all along a sequence of moves. *)
Fixpoint stays_above (lo depth : Z) (ts : list toc_token) : Prop :=
  lo ≤ depth ∧
  match ts with
  | [] => True
  | TocOpen :: ts' => stays_above lo (depth + 1) ts'
  | TocClose :: ts' => stays_above lo (depth - 1) ts'
  | TocItem _ :: ts' => stays_above lo depth ts'
  end.

(** The items of a sequence of moves. *)
Fixpoint toc_items (ts : list toc_token) : list TocEntry :=
  match ts with
  | [] => []
  | TocItem e :: ts' => e :: toc_items ts'
  | _ :: ts' => toc_items ts'
  end.

Definition count_token (p : toc_token → bool) (ts : list toc_token) : Z :=
  Z.of_nat (length (filter (λ t, p t = true) ts)).

Definition is_open (t : toc_token) : bool :=
  match t with TocOpen => true | _ => false end.
Definition is_close (t : toc_token) : bool :=
  match t with TocClose => true | _ => false end.

(** A line that holds hashes and white space only. *)
Definition hashes_and_space (line : string) : bool :=
  Str.all (λ c, char_eqb "#" c || isspace c) line.

(** A cell as it is written between two pipes: no pipe, no character
    that opens an inline pattern, no blank at either end. *)
Definition plain_cell (c : string) : Prop :=
  Str.contains "|" c = false ∧
  Str.all (λ a, negb (inline_opener a)) c = true ∧
  starts_blank c = false ∧ ends_blank c = false.

(** The row [| c1 | c2 | ... |]. *)
Definition row_text (cells : list string) : string :=
  "|" +:+ unlines "|" ((λ c, " " +:+ c +:+ " ") <$> cells).

Definition is_help_flag (a : string) : bool :=
  str_eqb a "-h" || str_eqb a "--help".
Definition is_path_flag (a : string) : bool :=
  str_eqb a "-m" || str_eqb a "--markdown" ||
  str_eqb a "-o" || str_eqb a "--output".

(** Arguments that the loop of [parse_args] passes over completely:
    arguments that are no flag, and path flags with their value. *)
Inductive scanned : list string → Prop :=
| scanned_nil : scanned []
| scanned_other a l :
    is_help_flag a = false → is_path_flag a = false → scanned l →
    scanned (a :: l)
| scanned_pair f v l :
    is_path_flag f = true → scanned l → scanned (f :: v :: l).

(** The files written by a run, with their contents, in order. *)
Definition written (es : list effect) : list (string * string) :=
  omap (λ e, match e with WriteFile p c _ => Some (p, c) | _ => None end) es.

(** A line that is copied as it is inside a code block. *)
Definition code_line (l : string) : Prop :=
  Str.empty l = false ∧
  regex_match l horizontal_rule_regex = false ∧
  regex_match l code_block_regex = false.

(** * Properties *)

(** ** Strings *)

Lemma sapp_cons c s t : String c s +:+ t = String c (s +:+ t).
Proof. reflexivity. Qed.

Lemma sapp_nil_l s : "" +:+ s = s.
Proof. reflexivity. Qed.

Lemma sapp_nil_r s : s +:+ "" = s.
Proof. induction s as [|c s IH]; [done|]. by rewrite sapp_cons, IH. Qed.

Lemma sapp_assoc a b c : (a +:+ b) +:+ c = a +:+ b +:+ c.
Proof. induction a as [|x a IH]; [done|]. by rewrite !sapp_cons, IH. Qed.

Lemma slength_app a b :
  String.length (a +:+ b) = (String.length a + String.length b)%nat.
Proof. induction a as [|x a IH]; [done|]. rewrite sapp_cons. simpl. lia. Qed.

Lemma char_eqb_eq a b : char_eqb a b = true ↔ a = b.
Proof. apply Ascii.eqb_eq. Qed.

Lemma char_eqb_refl a : char_eqb a a = true.
Proof. apply Ascii.eqb_refl. Qed.

Lemma take_app_length p s k :
  Str.take (String.length p + k) (p +:+ s) = p +:+ Str.take k s.
Proof. induction p as [|x p IH]; [done|]. rewrite !sapp_cons. simpl. by rewrite IH. Qed.

Lemma drop_app_length p s k :
  Str.drop (String.length p + k) (p +:+ s) = Str.drop k s.
Proof. induction p as [|x p IH]; [done|]. rewrite sapp_cons. simpl. by rewrite IH. Qed.

Lemma all_app p a b : Str.all p (a +:+ b) = Str.all p a && Str.all p b.
Proof.
  induction a as [|x a IH]; [done|].
  rewrite sapp_cons. simpl. rewrite IH. by destruct (p x).
Qed.

Lemma contains_app c a b :
  Str.contains c (a +:+ b) = Str.contains c a || Str.contains c b.
Proof.
  induction a as [|x a IH]; [done|].
  rewrite sapp_cons. simpl. rewrite IH. by destruct (char_eqb x c).
Qed.

(** ** The [getline] loop reads every line *)

Lemma getline_chars_length delim s :
  (String.length (getline_chars delim s).2 ≤ String.length s)%nat.
Proof.
  induction s as [|c s IH]; [done|]. simpl.
  destruct (char_eqb c delim); simpl; [lia|].
  destruct (getline_chars delim s). simpl in *. lia.
Qed.

Lemma getline_chars_cons_length delim c s :
  (String.length (getline_chars delim (String c s)).2 ≤ String.length s)%nat.
Proof.
  pose proof (getline_chars_length delim s) as H. simpl.
  destruct (char_eqb c delim); simpl; [lia|].
  by destruct (getline_chars delim s).
Qed.

Lemma lines_of_getline delim c s :
  lines_of delim (String c s) =
  (getline_chars delim (String c s)).1 ::
  lines_of delim (getline_chars delim (String c s)).2.
Proof.
  revert c. induction s as [|c' s IH]; intros c; simpl.
  - by destruct (char_eqb c delim).
  - destruct (char_eqb c delim); [done|].
    specialize (IH c'). simpl in IH. rewrite IH.
    destruct (char_eqb c' delim); [done|].
    by destruct (getline_chars delim s).
Qed.

(** With more iterations than characters the loop stops because the
    stream is exhausted, and what it has read does not depend on the
    bound. *)
Lemma getlines_loop_lines fuel delim s :
  (String.length s < fuel)%nat → getlines_loop fuel delim s = lines_of delim s.
Proof.
  revert s. induction fuel as [|fuel IH]; intros s Hf; [lia|].
  destruct s as [|c s]; [done|].
  change (getlines_loop (S fuel) delim (String c s)) with
    (match getline delim (String c s) with
     | None => []
     | Some (x, rest) => x :: getlines_loop fuel delim rest
     end).
  unfold getline. simpl Str.empty. cbv iota.
  rewrite lines_of_getline.
  pose proof (getline_chars_cons_length delim c s) as Hl.
  destruct (getline_chars delim (String c s)) as [l r].
  simpl in Hl, Hf. simpl fst. simpl snd. f_equal. apply IH. lia.
Qed.

Lemma getlines_lines delim s : getlines delim s = lines_of delim s.
Proof. apply getlines_loop_lines. lia. Qed.

(** ** Heading identifiers *)

Lemma sanitize_id_chars text : sanitize_id text = sanitize_chars text.
Proof.
  unfold sanitize_id, Str.replace.
  induction text as [|c s IH]; [done|].
  simpl. rewrite IH. unfold id_char.
  by destruct (isalnum _ || _ || _).
Qed.

Lemma sanitize_chars_alphabet text : Str.all id_char (sanitize_chars text) = true.
Proof.
  induction text as [|c s IH]; [done|].
  simpl. destruct (id_char _) eqn:E; [|done]. simpl. by rewrite E.
Qed.

Lemma sanitize_chars_app a b :
  sanitize_chars (a +:+ b) = sanitize_chars a +:+ sanitize_chars b.
Proof.
  induction a as [|c a IH]; [done|].
  rewrite sapp_cons. simpl. rewrite IH. by destruct (id_char _).
Qed.

(** ** [clean_header_text] removes every [**] *)

Lemma strip_bold_cons2 c c' s :
  strip_bold (String c (String c' s)) =
  if char_eqb c "*" && char_eqb c' "*" then strip_bold s
  else String c (strip_bold (String c' s)).
Proof. reflexivity. Qed.

Lemma find_in_bold_cons2 c c' s :
  Str.find_in "**" (String c (String c' s)) =
  if char_eqb c "*" && char_eqb c' "*" then Some 0%nat
  else S <$> Str.find_in "**" (String c' s).
Proof.
  change (Str.find_in "**" (String c (String c' s))) with
    (if char_eqb "*" c && (char_eqb "*" c' && true) then Some 0%nat
     else S <$> Str.find_in "**" (String c' s)).
  unfold char_eqb. by rewrite andb_true_r, (Ascii.eqb_sym c), (Ascii.eqb_sym c').
Qed.

Lemma find_in_bold_one c : Str.find_in "**" (String c "") = None.
Proof. simpl. by destruct (char_eqb "*" c). Qed.

Lemma find_in_bold_None s : Str.find_in "**" s = None → strip_bold s = s.
Proof.
  induction s as [|c s IH]; [done|].
  destruct s as [|c' s']; [done|].
  rewrite strip_bold_cons2, find_in_bold_cons2.
  destruct (char_eqb c "*" && char_eqb c' "*"); [done|].
  intros H. f_equal. apply IH.
  by destruct (Str.find_in "**" (String c' s')).
Qed.

Lemma find_in_bold_Some s k :
  Str.find_in "**" s = Some k →
  ∃ a b, s = a +:+ "**" +:+ b ∧ String.length a = k ∧
         strip_bold s = a +:+ strip_bold b.
Proof.
  revert k. induction s as [|c s IH]; intros k; [done|].
  destruct s as [|c' s']; [by rewrite find_in_bold_one|].
  rewrite strip_bold_cons2, find_in_bold_cons2.
  destruct (char_eqb c "*" && char_eqb c' "*") eqn:E.
  - apply andb_true_iff in E as [->%char_eqb_eq ->%char_eqb_eq].
    intros [= <-]. by exists "", s'.
  - destruct (Str.find_in "**" (String c' s')) as [k'|] eqn:F; [|done].
    intros [= <-].
    destruct (IH k' eq_refl) as (a & b & Hs & Hl & Hb).
    exists (String c a), b. split_and!.
    + by rewrite sapp_cons, <- Hs.
    + simpl. by rewrite Hl.
    + by rewrite Hb.
Qed.

Lemma clean_loop_strip fuel pre rest :
  (String.length rest ≤ fuel)%nat →
  clean_loop fuel (pre +:+ rest) (String.length pre) = pre +:+ strip_bold rest.
Proof.
  revert pre rest. induction fuel as [|fuel IH]; intros pre rest Hf.
  { destruct rest; [done|simpl in Hf; lia]. }
  simpl. unfold Str.find.
  replace (String.length (pre +:+ rest) <? String.length pre)%nat with false
    by (symmetry; apply Nat.ltb_ge; rewrite slength_app; lia).
  pose proof (drop_app_length pre rest 0) as Hd.
  rewrite Nat.add_0_r in Hd. rewrite Hd. simpl Str.drop.
  destruct (Str.find_in "**" rest) as [k|] eqn:F; simpl.
  - destruct (find_in_bold_Some _ _ F) as (a & b & -> & <- & ->).
    unfold Str.erase.
    rewrite take_app_length.
    replace (String.length pre + String.length a + 2)%nat
      with (String.length pre + (String.length a + 2))%nat by lia.
    rewrite drop_app_length.
    pose proof (take_app_length a ("**" +:+ b) 0) as Ht.
    rewrite Nat.add_0_r in Ht. rewrite Ht.
    pose proof (drop_app_length a ("**" +:+ b) 2) as Hd2. rewrite Hd2.
    replace (Str.take 0 ("**" +:+ b)) with "" by (by destruct b).
    change (Str.drop 2 ("**" +:+ b)) with b.
    rewrite sapp_nil_r, <- !sapp_assoc.
    replace (String.length pre + String.length a)%nat
      with (String.length (pre +:+ a)) by apply slength_app.
    apply IH. rewrite !slength_app in Hf. simpl in Hf. lia.
  - by rewrite (find_in_bold_None _ F).
Qed.

Lemma clean_header_text_strip t : clean_header_text t = strip_bold t.
Proof. apply (clean_loop_strip (String.length t) "" t). lia. Qed.

Lemma strip_bold_head c s t :
  strip_bold (String c s) = String "*" t → c = "*"%char.
Proof.
  remember (String.length s) as m eqn:Hm.
  revert s Hm c t. induction (lt_wf m) as [m _ IHm]. intros s -> c t.
  destruct s as [|d s']; [by intros [= ->]|].
  rewrite strip_bold_cons2.
  destruct (char_eqb c "*" && char_eqb d "*") eqn:E.
  - apply andb_true_iff in E as [E1 _]. by apply char_eqb_eq in E1.
  - by intros [= ->].
Qed.

Lemma strip_bold_no_marker s : Str.find_in "**" (strip_bold s) = None.
Proof.
  remember (String.length s) as n eqn:Hn.
  revert s Hn. induction (lt_wf n) as [n _ IH]. intros s ->.
  destruct s as [|c s]; [done|].
  destruct s as [|c' s']; [apply find_in_bold_one|].
  rewrite strip_bold_cons2.
  destruct (char_eqb c "*" && char_eqb c' "*") eqn:E.
  { eapply IH; [|reflexivity]. simpl. lia. }
  assert (IH' : Str.find_in "**" (strip_bold (String c' s')) = None).
  { eapply IH; [|reflexivity]. simpl. lia. }
  destruct (strip_bold (String c' s')) as [|x r] eqn:R;
    [apply find_in_bold_one|].
  rewrite find_in_bold_cons2, IH'.
  destruct (char_eqb c "*" && char_eqb x "*") eqn:E'; [|done].
  apply andb_true_iff in E' as [E1 E2].
  apply char_eqb_eq in E2 as ->. apply strip_bold_head in R as ->.
  by rewrite E1 in E.
Qed.

(** ** Regular expressions *)

Lemma void_not_nullable r : void r = true → nullable r = false.
Proof.
  induction r as [| |p|r1 IH1 r2 IH2|r1 IH1 r2 IH2|r IH]; simpl; try done.
  - intros [H|H]%orb_true_iff; [rewrite IH1|rewrite IH2, andb_false_r]; done.
  - intros [H1 H2]%andb_true_iff. by rewrite IH1, IH2.
Qed.

Lemma void_deriv c r : void r = true → void (deriv c r) = true.
Proof.
  induction r as [| |p|r1 IH1 r2 IH2|r1 IH1 r2 IH2|r IH]; simpl; try done.
  - intros [H|H]%orb_true_iff.
    + rewrite IH1, (void_not_nullable r1) by done. done.
    + rewrite H, orb_true_r. simpl. destruct (nullable r1); auto.
  - intros [H1 H2]%andb_true_iff. by rewrite IH1, IH2.
Qed.

Lemma matches_void r s : void r = true → matches r s = false.
Proof.
  revert r. induction s as [|c s IH]; intros r Hr; simpl.
  - by apply void_not_nullable.
  - by apply IH, void_deriv.
Qed.

Lemma matches_Alt r1 r2 s :
  matches (Alt r1 r2) s = matches r1 s || matches r2 s.
Proof. revert r1 r2. induction s as [|c s IH]; intros; simpl; [done|apply IH]. Qed.

Lemma matches_Eps s : matches Eps s = Str.empty s.
Proof. destruct s; [done|]. simpl. by apply matches_void. Qed.

Lemma matches_Cat_nullable r1 r2 s :
  nullable r1 = true → matches r2 s = true → matches (Cat r1 r2) s = true.
Proof.
  intros H1 H2. destruct s as [|c s]; simpl in *.
  - by rewrite H1, H2.
  - rewrite matches_Alt, H1, H2. apply orb_true_r.
Qed.

Lemma matches_Cat_app r1 r2 s1 s2 :
  matches r1 s1 = true → matches r2 s2 = true →
  matches (Cat r1 r2) (s1 +:+ s2) = true.
Proof.
  revert r1. induction s1 as [|c s1 IH]; intros r1 H1 H2.
  - by apply matches_Cat_nullable.
  - rewrite sapp_cons. simpl. rewrite matches_Alt, IH; done.
Qed.

Lemma matches_Star_class p s :
  Str.all p s = true → matches (Star (Class p)) s = true.
Proof.
  induction s as [|c s IH]; [done|].
  simpl. intros [Hc Hs]%andb_true_iff. rewrite Hc.
  apply matches_Cat_nullable; auto.
Qed.

Lemma matches_Plus_class p s :
  Str.empty s = false → Str.all p s = true →
  matches (Plus (Class p)) s = true.
Proof.
  destruct s as [|c s]; [done|]. intros _ [Hc Hs]%andb_true_iff.
  change (String c s) with (String c "" +:+ s).
  apply matches_Cat_app; [by simpl; rewrite Hc|by apply matches_Star_class].
Qed.

Lemma matches_Times_lit n c :
  matches (Times n (Lit c)) (Str.replicate n (String c "")) = true.
Proof.
  induction n as [|n IH]; [done|]. simpl Str.replicate.
  apply matches_Cat_app; [|done]. simpl.
  by rewrite char_eqb_refl.
Qed.

Lemma chars_in_deriv q c r : chars_in q r → chars_in q (deriv c r).
Proof.
  induction r as [| |p|r1 IH1 r2 IH2|r1 IH1 r2 IH2|r IH]; simpl; try done.
  - by destruct (p c).
  - intros [??]. split_and!; auto. destruct (nullable r1); simpl; auto.
  - intros [??]; auto.
  - auto.
Qed.

Lemma chars_in_outside q c r :
  chars_in q r → q c = false → void (deriv c r) = true.
Proof.
  intros Hr Hc.
  induction r as [| |p|r1 IH1 r2 IH2|r1 IH1 r2 IH2|r IH]; simpl in *; try done.
  - destruct (p c) eqn:E; [|done]. apply Hr in E. congruence.
  - destruct Hr as [??]. rewrite IH1 by done. simpl.
    destruct (nullable r1); auto.
  - destruct Hr as [??]. by rewrite IH1, IH2.
  - by rewrite IH.
Qed.

(** A line matched by [r] is made of the characters of [r]. *)
Lemma matches_chars_in q r s :
  chars_in q r → matches r s = true → Str.all q s = true.
Proof.
  revert r. induction s as [|c s IH]; intros r Hr Hm; [done|].
  simpl in *. destruct (q c) eqn:E; simpl.
  - eapply IH; [|done]. by apply chars_in_deriv.
  - by rewrite (matches_void _ _ (chars_in_outside q c r Hr E)) in Hm.
Qed.

Lemma must_hit_not_nullable q r : must_hit q r → nullable r = false.
Proof.
  induction r as [| |p|r1 IH1 r2 IH2|r1 IH1 r2 IH2|r IH]; simpl; try done.
  - intros [H|H]; [rewrite IH1|rewrite IH2, andb_false_r]; done.
  - intros [??]. by rewrite IH1, IH2.
Qed.

Lemma must_hit_deriv q c r :
  must_hit q r → q c = false → must_hit q (deriv c r).
Proof.
  intros Hr Hc.
  induction r as [| |p|r1 IH1 r2 IH2|r1 IH1 r2 IH2|r IH]; simpl in *; try done.
  - destruct (p c) eqn:E; [|done]. apply Hr in E. congruence.
  - destruct Hr as [H|H].
    + rewrite (must_hit_not_nullable q r1) by done. simpl. auto.
    + split; [auto|]. destruct (nullable r1); simpl; auto.
  - destruct Hr as [??]. auto.
Qed.

(** A line without any character of [q] is not matched by [r]. *)
Lemma matches_must_hit q r s :
  must_hit q r → Str.all (λ c, negb (q c)) s = true → matches r s = false.
Proof.
  revert r. induction s as [|c s IH]; intros r Hr Hs; simpl in *.
  - by eapply must_hit_not_nullable.
  - apply andb_true_iff in Hs as [Hc Hs]. apply negb_true_iff in Hc.
    apply IH; [|done]. by apply must_hit_deriv.
Qed.

Lemma all_impl (p q : ascii → bool) s :
  (∀ c, p c = true → q c = true) → Str.all p s = true → Str.all q s = true.
Proof.
  intros Hpq. induction s as [|c s IH]; [done|]. simpl.
  intros [Hc Hs]%andb_true_iff. by rewrite (Hpq c Hc), IH.
Qed.

Lemma contains_all c s :
  Str.contains c s = negb (Str.all (λ a, negb (char_eqb c a)) s).
Proof.
  induction s as [|a s IH]; [done|]. simpl. rewrite IH.
  unfold char_eqb. rewrite (Ascii.eqb_sym a c).
  by destruct (Ascii.eqb c a).
Qed.

(** ** Facts about the patterns of the scanner *)

Ltac by_chars :=
  intros [[] [] [] [] [] [] [] []]; vm_compute; try done; try congruence.

Lemma divider_chars : chars_in divider_char table_divider_regex.
Proof. simpl. repeat split; try done; by_chars. Qed.

Lemma divider_has_pipe : must_hit (char_eqb "|") table_divider_regex.
Proof. simpl. right. right. right. left. done. Qed.

Lemma rule_chars : chars_in rule_line_char horizontal_rule_regex.
Proof. simpl. repeat split; try done; by_chars. Qed.

Lemma fence_has_backtick : must_hit (char_eqb "`") code_block_regex.
Proof. simpl. left. left. done. Qed.

Lemma heading_has_hash n : (1 ≤ n)%nat → must_hit (char_eqb "#") (h_regex n).
Proof. destruct n; [lia|]. intros _. simpl. left. left. done. Qed.

Lemma matches_no_char q c r s :
  must_hit (char_eqb c) r → (∀ a, q a = true → char_eqb c a = false) →
  Str.all q s = true → matches r s = false.
Proof.
  intros Hr Hq Hs. eapply matches_must_hit; [done|].
  eapply all_impl; [|done]. intros a Ha. by rewrite (Hq a Ha).
Qed.

Lemma divider_not_empty : regex_match "" table_divider_regex = false.
Proof. reflexivity. Qed.

Lemma rule_not_empty : regex_match "" horizontal_rule_regex = false.
Proof. reflexivity. Qed.

Lemma regex_match_nonempty line r :
  regex_match "" r = false → regex_match line r = true → Str.empty line = false.
Proof. destruct line; [congruence|done]. Qed.

(** A divider line is no rule, no fence and no heading, and none of its
    characters opens an inline pattern. *)
Lemma divider_line_facts line :
  regex_match line table_divider_regex = true →
  Str.empty line = false ∧
  regex_match line horizontal_rule_regex = false ∧
  regex_match line code_block_regex = false ∧
  (∀ n, (1 ≤ n)%nat → regex_match line (h_regex n) = false) ∧
  Str.all (λ c, negb (inline_opener c)) line = true.
Proof.
  intros Hd.
  pose proof (matches_chars_in _ _ _ divider_chars Hd) as Hall.
  split_and!.
  - exact (regex_match_nonempty _ _ divider_not_empty Hd).
  - destruct (regex_match line horizontal_rule_regex) eqn:Hr; [|done].
    pose proof (matches_chars_in _ _ _ rule_chars Hr) as Hrule.
    unfold regex_match in Hd.
    rewrite (matches_no_char rule_line_char "|" _ _ divider_has_pipe) in Hd;
      [done| |done].
    by_chars.
  - eapply (matches_no_char divider_char "`"); [apply fence_has_backtick| |done].
    by_chars.
  - intros n Hn.
    eapply (matches_no_char divider_char "#"); [by apply heading_has_hash| |done].
    by_chars.
  - eapply all_impl; [|done]. by_chars.
Qed.

(** ** Inline formatting leaves plain text alone *)

Lemma bracketed_opener opn0 opn stop cls c s :
  char_eqb opn0 c = false → bracketed (String opn0 opn) stop cls (String c s) = None.
Proof. intros H. unfold bracketed. simpl. by rewrite H. Qed.

Lemma opener_star c : inline_opener c = false → char_eqb "*" c = false.
Proof. revert c. by_chars. Qed.
Lemma opener_tick c : inline_opener c = false → char_eqb "`" c = false.
Proof. revert c. by_chars. Qed.
Lemma opener_bracket c : inline_opener c = false → char_eqb "[" c = false.
Proof. revert c. by_chars. Qed.

Lemma bold_inert : inert bold_regex.
Proof.
  intros c s H. unfold bold_regex.
  by rewrite bracketed_opener by by apply opener_star.
Qed.

Lemma italic_inert : inert italic_regex.
Proof.
  intros c s H. unfold italic_regex.
  by rewrite bracketed_opener by by apply opener_star.
Qed.

Lemma inline_code_inert : inert inline_code_regex.
Proof.
  intros c s H. unfold inline_code_regex.
  by rewrite bracketed_opener by by apply opener_tick.
Qed.

Lemma link_inert : inert link_regex.
Proof.
  intros c s H. unfold link_regex.
  by rewrite bracketed_opener by by apply opener_bracket.
Qed.

Lemma regex_replace_plain p s :
  inert p → Str.all (λ c, negb (inline_opener c)) s = true →
  regex_replace s p = s.
Proof.
  intros Hp. unfold regex_replace.
  induction s as [|c s IH]; [done|].
  simpl. intros [Hc Hs]%andb_true_iff. apply negb_true_iff in Hc.
  by rewrite (Hp c s Hc), IH.
Qed.

Lemma paragraph_plain st line :
  Str.empty line = false →
  Str.all (λ c, negb (inline_opener c)) line = true →
  paragraph st line = emit st ("<p>" +:+ line +:+ "</p>" +:+ nl).
Proof.
  intros Hne Hall. unfold paragraph.
  rewrite (regex_replace_plain link_regex), (regex_replace_plain bold_regex),
    (regex_replace_plain italic_regex), (regex_replace_plain inline_code_regex)
    by auto using link_inert, bold_inert, italic_inert, inline_code_inert.
  by rewrite Hne.
Qed.

Lemma heading_stage_no_heading st line :
  (∀ n, (1 ≤ n)%nat → regex_match line (h_regex n) = false) →
  heading_stage st line = paragraph st line.
Proof.
  intros H. unfold heading_stage, h1_regex, h2_regex, h3_regex, h4_regex,
    h5_regex, h6_regex. by rewrite !H by lia.
Qed.

(** ** Lines inside a fenced code block *)

Lemma heading_line_hash n line :
  (1 ≤ n)%nat → regex_match line (h_regex n) = true →
  ∃ rest, line = String "#" rest.
Proof.
  intros Hn H. destruct n as [|n]; [lia|].
  destruct line as [|c rest]; [done|].
  destruct (char_eqb "#" c) eqn:E.
  { apply char_eqb_eq in E as <-. by exists rest. }
  unfold regex_match in H. simpl in H. rewrite E in H.
  by rewrite matches_void in H.
Qed.

Lemma hash_line_no_rule rest :
  regex_match (String "#" rest) horizontal_rule_regex = false.
Proof. exact (matches_void (deriv "#" horizontal_rule_regex) rest eq_refl). Qed.

Lemma hash_line_no_fence rest :
  regex_match (String "#" rest) code_block_regex = false.
Proof. exact (matches_void (deriv "#" code_block_regex) rest eq_refl). Qed.

Lemma hash_line_no_divider rest :
  regex_match (String "#" rest) table_divider_regex = false.
Proof. exact (matches_void (deriv "#" table_divider_regex) rest eq_refl). Qed.

Lemma pipe_line_no_rule line :
  Str.contains "|" line = true → regex_match line horizontal_rule_regex = false.
Proof.
  intros Hp. destruct (regex_match line horizontal_rule_regex) eqn:Hr; [|done].
  pose proof (matches_chars_in _ _ _ rule_chars Hr) as Hall.
  rewrite contains_all in Hp. apply negb_true_iff in Hp.
  rewrite (all_impl rule_line_char) in Hp; [done| |done]. by_chars.
Qed.

(** C2 (as amended).  In code-block mode a line that is not blank, not a
    horizontal rule and not a fence is appended to the output verbatim,
    followed by a newline, and nothing else of the state changes; this
    covers every heading line, every table-divider line and every pipe
    line that is not a fence.  A blank line is skipped and a
    horizontal-rule line produces the rule element, also there, because
    both are tested before the mode is looked at. *)
Theorem code_block_line_verbatim st line :
  in_code_block st = true →
  (Str.empty line = false →
   regex_match line horizontal_rule_regex = false →
   regex_match line code_block_regex = false →
   process_line st line = emit st (line +:+ nl)) ∧
  (∀ n, (1 ≤ n)%nat → regex_match line (h_regex n) = true →
        process_line st line = emit st (line +:+ nl)) ∧
  (regex_match line table_divider_regex = true →
   process_line st line = emit st (line +:+ nl)) ∧
  (Str.contains "|" line = true → regex_match line code_block_regex = false →
   process_line st line = emit st (line +:+ nl)) ∧
  (Str.empty line = true → process_line st line = st) ∧
  (regex_match line horizontal_rule_regex = true →
   process_line st line = emit st ("<hr>" +:+ nl)).
Proof.
  intros Hcode.
  assert (Hv : Str.empty line = false →
               regex_match line horizontal_rule_regex = false →
               regex_match line code_block_regex = false →
               process_line st line = emit st (line +:+ nl)).
  { intros H1 H2 H3. unfold process_line. by rewrite H1, H2, H3, Hcode. }
  split_and!.
  - done.
  - intros n Hn Hh. destruct (heading_line_hash n line Hn Hh) as [rest ->].
    apply Hv; [done|apply hash_line_no_rule|apply hash_line_no_fence].
  - intros Hd. destruct (divider_line_facts line Hd) as (?&?&?&_). by apply Hv.
  - intros Hp Hf. apply Hv; [by destruct line|by apply pipe_line_no_rule|done].
  - intros He. unfold process_line. by rewrite He.
  - intros Hr. unfold process_line.
    by rewrite (regex_match_nonempty _ _ rule_not_empty Hr), Hr.
Qed.

Lemma code_block_line_verbatim_witness :
  let st := process_line (initial_state []) "```" in
  process_line st "# not a **heading**" =
  emit st ("# not a **heading**" +:+ nl).
Proof.
  intros st.
  destruct (code_block_line_verbatim st "# not a **heading**" eq_refl)
    as (H & _).
  apply H; reflexivity.
Defined.

(** C2, as stated, fails: inside a code block the line [---] is not
    emitted as code content, it produces a rule element, and a blank
    line is dropped. *)
Lemma code_block_rule_and_blank_not_verbatim :
  let st := process_line (initial_state []) "```" in
  in_code_block st = true ∧
  html (process_line st "---") = html st +:+ "<hr>" +:+ nl ∧
  html (process_line st "---") ≠ html st +:+ "---" +:+ nl ∧
  html (process_line st "") = html st ∧
  html (process_line st "") ≠ html st +:+ "" +:+ nl ∧
  (markdown_to_html
     ("```" +:+ nl +:+ "x" +:+ nl +:+ nl +:+ "---" +:+ nl +:+ "```" +:+ nl)
     []).1 =
  "<pre><code>" +:+ nl +:+ "x" +:+ nl +:+ "<hr>" +:+ nl +:+ "</code></pre>" +:+ nl.
Proof. vm_compute. split_and!; done. Qed.

(** ** A divider line with nothing buffered *)



(** ** Tables *)

Lemma cells_loop_app cells first_row out :
  cells_loop cells first_row out =
  out +:+ Str.concat (cell_html (if first_row then "th" else "td") <$> cells).
Proof.
  revert out. induction cells as [|cell cells IH]; intros out; simpl.
  - by rewrite sapp_nil_r.
  - by rewrite IH, sapp_assoc.
Qed.

Lemma concat_cons x l : Str.concat (x :: l) = x +:+ Str.concat l.
Proof. reflexivity. Qed.

Lemma with_cells_skip rows : with_cells ([] :: rows) = with_cells rows.
Proof. unfold with_cells. by rewrite filter_cons_False by (by intros []). Qed.

Lemma with_cells_keep cell row rows :
  with_cells ((cell :: row) :: rows) = (cell :: row) :: with_cells rows.
Proof. unfold with_cells. by rewrite filter_cons_True. Qed.

Lemma rows_loop_skip rows first_row out :
  rows_loop ([] :: rows) first_row out = rows_loop rows first_row out.
Proof. reflexivity. Qed.

Lemma rows_loop_keep cell row rows first_row out :
  rows_loop ((cell :: row) :: rows) first_row out =
  rows_loop rows false
    (cells_loop (cell :: row) first_row (out +:+ "<tr>") +:+ ("</tr>" +:+ nl)).
Proof. reflexivity. Qed.

Lemma rows_loop_body rows out :
  rows_loop rows false out =
  out +:+ Str.concat (row_html "td" <$> with_cells rows).
Proof.
  revert out. induction rows as [|row rows IH]; intros out.
  - simpl. by rewrite sapp_nil_r.
  - destruct row as [|cell row].
    + by rewrite rows_loop_skip, with_cells_skip.
    + rewrite rows_loop_keep, with_cells_keep, IH, cells_loop_app.
      rewrite (fmap_cons (row_html "td")), (concat_cons (row_html "td" _)).
      unfold row_html. by rewrite !sapp_assoc.
Qed.

Lemma rows_loop_header rows out :
  rows_loop rows true out =
  out +:+ match with_cells rows with
          | [] => ""
          | header :: body =>
              row_html "th" header +:+ Str.concat (row_html "td" <$> body)
          end.
Proof.
  revert out. induction rows as [|row rows IH]; intros out.
  - simpl. by rewrite sapp_nil_r.
  - destruct row as [|cell row].
    + by rewrite rows_loop_skip, with_cells_skip.
    + rewrite rows_loop_keep, with_cells_keep, rows_loop_body, cells_loop_app.
      unfold row_html. by rewrite !sapp_assoc.
Qed.

Lemma table_block_html rows out :
  table_block rows out = out +:+ table_html rows.
Proof.
  unfold table_block, table_html. rewrite rows_loop_header.
  by rewrite !sapp_assoc.
Qed.

(** ** The shape of a scanner step *)

Lemma emit_heading_eq st n line :
  let t := clean_header_text (heading_capture n line) in
  let ic := generate_unique_id t (id_counts st) in
  emit_heading st n line =
  mkState (html st +:+ heading_html (Z.of_nat n) ic.1 t)
    (toc st ++ [mkTocEntry (Z.of_nat n) t ic.1])
    (in_code_block st) (in_table st) (code_lang st) (table_rows st) ic.2.
Proof.
  intros t ic. unfold emit_heading. fold t. subst ic.
  by destruct (generate_unique_id t (id_counts st)).
Qed.

Lemma quiet_step_refl st : quiet_step st st.
Proof. split; [|done]. exists "". by rewrite sapp_nil_r. Qed.

Lemma quiet_step_emit st x : quiet_step st (emit st x).
Proof. split; [|done]. by exists x. Qed.

Lemma paragraph_quiet st line : quiet_step st (paragraph st line).
Proof.
  unfold paragraph. case_match; [apply quiet_step_refl|apply quiet_step_emit].
Qed.

Lemma heading_stage_shape st0 st line :
  (∃ x, html st0 = html st +:+ x) → toc st0 = toc st →
  id_counts st0 = id_counts st →
  quiet_step st (heading_stage st0 line) ∨
  heading_step st (heading_stage st0 line) line.
Proof.
  intros [x Hx] Ht Hc.
  assert (Hhead : ∀ n, (1 ≤ n ≤ 6)%nat → regex_match line (h_regex n) = true →
                       heading_step st (emit_heading st0 n line) line).
  { intros n Hn Hm. exists n, x. split; [done|]. split; [done|].
    rewrite emit_heading_eq. simpl. by rewrite Hx, Ht, Hc, sapp_assoc. }
  unfold heading_stage, h1_regex, h2_regex, h3_regex, h4_regex,
    h5_regex, h6_regex.
  repeat (case_match; [right; apply Hhead; [lia|done]|]).
  left. destruct (paragraph_quiet st0 line) as ([y Hy] & Ht' & Hc').
  split; [|by rewrite Ht', Hc'].
  exists (x +:+ y). by rewrite Hy, Hx, sapp_assoc.
Qed.

Lemma process_line_shape st line :
  quiet_step st (process_line st line) ∨
  heading_step st (process_line st line) line.
Proof.
  unfold process_line.
  case_match; [left; apply quiet_step_refl|].
  case_match; [left; apply quiet_step_emit|].
  case_match.
  { left. unfold fence. case_match; (split; [by eexists|done]). }
  case_match; [left; apply quiet_step_emit|].
  unfold table_stage.
  case_match.
  { case_match; [left; split; [|done]; exists ""; by rewrite sapp_nil_r|].
    apply heading_stage_shape; [|done..]. exists "". by rewrite sapp_nil_r. }
  case_match; [left; split; [|done]; exists ""; by rewrite sapp_nil_r|].
  case_match.
  - apply heading_stage_shape; [|done..].
    exists (table_html (table_rows st)). apply table_block_html.
  - apply heading_stage_shape; [|done..]. exists "". by rewrite sapp_nil_r.
Qed.

Lemma scan_snoc lines line st :
  scan (lines ++ [line]) st = process_line (scan lines st) line.
Proof. unfold scan. by rewrite foldl_app. Qed.

Lemma scan_app l1 l2 st : scan (l1 ++ l2) st = scan l2 (scan l1 st).
Proof. unfold scan. by rewrite foldl_app. Qed.

Lemma scan_invariant (P : scan_state → Prop) st lines :
  P st → (∀ s l, P s → P (process_line s l)) → P (scan lines st).
Proof.
  intros H0 Hstep. revert st H0.
  induction lines as [|l lines IH]; intros st H0; [done|].
  apply IH, Hstep, H0.
Qed.

(** Table mode is only ever active with rows in the buffer. *)
Lemma process_line_table_rows st line :
  (in_table st = true → table_rows st ≠ []) →
  in_table (process_line st line) = true → table_rows (process_line st line) ≠ [].
Proof.
  intros Hinv. unfold process_line.
  case_match; [done|]. case_match; [done|].
  case_match; [unfold fence; by case_match|].
  case_match; [done|].
  assert (Hh : ∀ st0, (in_table st0 = true → table_rows st0 ≠ []) →
    in_table (heading_stage st0 line) = true →
    table_rows (heading_stage st0 line) ≠ []).
  { intros st0 Hst0. unfold heading_stage.
    repeat (case_match; [rewrite emit_heading_eq; exact Hst0|]).
    unfold paragraph. by case_match. }
  unfold table_stage.
  case_match.
  { case_match; [|by apply Hh]. simpl. intros _.
    match goal with H : _ && _ = true |- _ =>
      apply andb_true_iff in H as [_ H]; apply negb_true_iff in H;
      by apply bool_decide_eq_false in H end. }
  case_match; [simpl; intros _; by destruct (table_rows st)|].
  case_match; apply Hh; [by simpl|congruence].
Qed.

Lemma reachable_table_rows st :
  reachable st → in_table st = true → table_rows st ≠ [].
Proof.
  intros [lines ->]. apply scan_invariant; [done|].
  intros s l. apply process_line_table_rows.
Qed.

(** C7 (as amended).  In every state the scanner can reach with table
    mode active, the flush at the end of the document and the flush
    triggered by a line without a pipe append the same HTML: the table
    element in which the first buffered row that has cells gives the
    header cells and the later rows that have cells give body cells (rows
    without cells are skipped).  The line that triggers the flush in the
    middle of the document is then processed as usual. *)
Theorem table_flush_same_html st :
  reachable st → in_table st = true →
  flush_table_at_end st = html st +:+ table_html (table_rows st) ∧
  html (flush_table st) = html st +:+ table_html (table_rows st) ∧
  (∀ line,
     in_code_block st = false → Str.empty line = false →
     regex_match line horizontal_rule_regex = false →
     regex_match line code_block_regex = false →
     regex_match line table_divider_regex = false →
     Str.contains "|" line = false →
     process_line st line = heading_stage (flush_table st) line ∧
     ∃ tail, html (process_line st line) =
             html st +:+ table_html (table_rows st) +:+ tail).
Proof.
  intros Hreach Htable.
  pose proof (reachable_table_rows st Hreach Htable) as Hrows.
  split_and!.
  - unfold flush_table_at_end. rewrite Htable.
    rewrite bool_decide_eq_false_2 by done. apply table_block_html.
  - apply table_block_html.
  - intros line Hcode He Hr Hf Hd Hp.
    assert (process_line st line = heading_stage (flush_table st) line) as ->.
    { unfold process_line. rewrite He, Hr, Hf, Hcode.
      unfold table_stage. by rewrite Hd, Hp, Htable. }
    split; [done|].
    destruct (heading_stage_shape (flush_table st) (flush_table st) line)
      as [([x Hx] & _)|(n & x & _ & _ & Hx & _)]; try done.
    + exists "". by rewrite sapp_nil_r.
    + exists x. rewrite Hx. simpl. by rewrite table_block_html, sapp_assoc.
    + eexists. rewrite Hx. simpl. by rewrite table_block_html, !sapp_assoc.
Qed.

Lemma table_flush_same_html_witness :
  let st := scan ["a|b"; "-|-"; "c|d"] (initial_state []) in
  flush_table_at_end st = html st +:+ table_html (table_rows st) ∧
  html (flush_table st) = html st +:+ table_html (table_rows st) ∧
  process_line st "text" = heading_stage (flush_table st) "text".
Proof.
  intros st.
  destruct (table_flush_same_html st
              (ex_intro _ ["a|b"; "-|-"; "c|d"] eq_refl) eq_refl)
    as (H1 & H2 & H3).
  split_and!; [exact H1|exact H2|].
  apply (H3 "text"); reflexivity.
Defined.

(** C7, as stated, fails when the first buffered row has no cells (the
    line [|]): the second buffered row is then rendered as header cells,
    not as body cells. *)
Lemma table_header_is_not_always_first_row :
  let st := scan ["|"; "x|y"; "-|-"] (initial_state []) in
  in_table st = true ∧
  table_rows st = [[]; ["x"; "y"]] ∧
  flush_table_at_end st =
    "<table>" +:+ nl +:+ "<tr><th>x</th><th>y</th></tr>" +:+ nl +:+
    "</table>" +:+ nl ∧
  flush_table_at_end st ≠ html st +:+ table_html_first_row (table_rows st) ∧
  html (flush_table st) ≠ html st +:+ table_html_first_row (table_rows st).
Proof. vm_compute. split_and!; done. Qed.

(** ** Parts of a string *)

Lemma embeds_app_r parts s t : embeds parts s → embeds parts (s +:+ t).
Proof.
  revert s. induction parts as [|p parts IH]; intros s; [done|].
  intros (pre & rest & -> & H). exists pre, (rest +:+ t).
  split; [by rewrite !sapp_assoc|by apply IH].
Qed.


Lemma embeds_snoc parts s x p :
  embeds parts s → embeds (parts ++ [p]) (s +:+ x +:+ p).
Proof.
  revert s. induction parts as [|q parts IH]; intros s.
  - intros _. exists (s +:+ x), "". split; [|done].
    by rewrite sapp_nil_r, sapp_assoc.
  - intros (pre & rest & -> & H). exists pre, (rest +:+ x +:+ p).
    split; [by rewrite !sapp_assoc|by apply IH].
Qed.


(** ** The table of contents *)

Lemma replicate_S n s : Str.replicate (S n) s = s +:+ Str.replicate n s.
Proof. reflexivity. Qed.

(** The opening loop leaves through its condition: it stops at the
    larger of the two levels. *)
Lemma open_levels_eq out current_level lvl :
  open_levels (Z.to_nat (lvl - current_level)) out current_level lvl =
  (out +:+ Str.replicate (Z.to_nat (lvl - current_level)) ("<ul>" +:+ nl),
   Z.max current_level lvl).
Proof.
  remember (Z.to_nat (lvl - current_level)) as fuel eqn:Hf.
  revert out current_level Hf.
  induction fuel as [|fuel IH]; intros out cur Hf; simpl.
  - rewrite sapp_nil_r. f_equal. lia.
  - assert ((cur <? lvl) = true) as -> by (apply Z.ltb_lt; lia).
    rewrite IH by lia. rewrite sapp_assoc. f_equal. lia.
Qed.

Lemma close_levels_eq out current_level lvl :
  close_levels (Z.to_nat (current_level - lvl)) out current_level lvl =
  (out +:+ Str.replicate (Z.to_nat (current_level - lvl)) ("</ul>" +:+ nl),
   Z.min current_level lvl).
Proof.
  remember (Z.to_nat (current_level - lvl)) as fuel eqn:Hf.
  revert out current_level Hf.
  induction fuel as [|fuel IH]; intros out cur Hf; simpl.
  - rewrite sapp_nil_r. f_equal. lia.
  - assert ((cur >? lvl) = true) as -> by (apply Z.gtb_lt; lia).
    rewrite IH by lia. rewrite sapp_assoc. f_equal. lia.
Qed.

Lemma render_tokens_app a b :
  render_tokens (a ++ b) = render_tokens a +:+ render_tokens b.
Proof.
  unfold render_tokens. induction a as [|t a IH]; [done|].
  rewrite <- app_comm_cons, !fmap_cons, !concat_cons, IH.
  by rewrite sapp_assoc.
Qed.

Lemma render_tokens_cons t ts :
  render_tokens (t :: ts) = render_token t +:+ render_tokens ts.
Proof. reflexivity. Qed.

Lemma render_tokens_replicate n t :
  render_tokens (replicate n t) = Str.replicate n (render_token t).
Proof.
  induction n as [|n IH]; [done|].
  simpl replicate. by rewrite render_tokens_cons, IH.
Qed.

Lemma toc_entry_eq out current_level entry :
  toc_entry (out, current_level) entry =
  (out +:+
   render_tokens
     (replicate (Z.to_nat (level entry - current_level)) TocOpen ++
      replicate (Z.to_nat (current_level - level entry)) TocClose ++
      [TocItem entry]),
   level entry).
Proof.
  unfold toc_entry. rewrite open_levels_eq.
  rewrite !render_tokens_app, !render_tokens_replicate.
  change (render_tokens [TocItem entry]) with (toc_item entry +:+ "").
  change (render_token TocOpen) with ("<ul>" +:+ nl).
  change (render_token TocClose) with ("</ul>" +:+ nl).
  destruct (Z.le_gt_cases current_level (level entry)) as [Hle|Hgt].
  - replace (Z.max current_level (level entry)) with (level entry) by lia.
    replace (Z.to_nat (level entry - level entry)) with 0%nat by lia.
    replace (Z.to_nat (current_level - level entry)) with 0%nat by lia.
    simpl close_levels. simpl (Str.replicate 0 _). cbv beta iota.
    by rewrite ?sapp_assoc, ?sapp_nil_r, ?sapp_nil_l.
  - replace (Z.max current_level (level entry)) with current_level by lia.
    rewrite close_levels_eq.
    replace (Z.to_nat (level entry - current_level)) with 0%nat by lia.
    simpl (Str.replicate 0 _). cbv beta iota.
    rewrite ?sapp_assoc, ?sapp_nil_r, ?sapp_nil_l. f_equal. lia.
Qed.

Lemma toc_loop_eq entries out current_level :
  let '(o, c) := foldl toc_entry (out, current_level) entries in
  (close_levels (Z.to_nat (c - 1)) o c 1).1 =
  out +:+ render_tokens (toc_tokens current_level entries).
Proof.
  revert out current_level.
  induction entries as [|entry entries IH]; intros out cur.
  - simpl foldl. cbv beta iota. rewrite close_levels_eq. simpl fst.
    simpl toc_tokens. by rewrite render_tokens_replicate.
  - change (foldl toc_entry (out, cur) (entry :: entries))
      with (foldl toc_entry (toc_entry (out, cur) entry) entries).
    rewrite toc_entry_eq.
    specialize (IH (out +:+
      render_tokens
        (replicate (Z.to_nat (level entry - cur)) TocOpen ++
         replicate (Z.to_nat (cur - level entry)) TocClose ++
         [TocItem entry])) (level entry)).
    destruct (foldl toc_entry _ entries) as [o c].
    rewrite IH. simpl toc_tokens.
    rewrite sapp_assoc, <- render_tokens_app. do 2 f_equal.
    by rewrite <- !app_assoc.
Qed.

Lemma generate_toc_html_tokens entries :
  entries ≠ [] →
  generate_toc_html entries =
  toc_header +:+ render_tokens (toc_tokens 1 entries) +:+ toc_footer.
Proof.
  intros Hne. unfold generate_toc_html.
  destruct entries as [|e es]; [done|].
  pose proof (toc_loop_eq (e :: es) toc_header 1) as H.
  destruct (foldl toc_entry (toc_header, 1) (e :: es)) as [o c].
  destruct (close_levels (Z.to_nat (c - 1)) o c 1) as [o' c'].
  simpl in H. subst o'. by rewrite sapp_assoc.
Qed.

Lemma tracks_opens n depth ts :
  tracks depth (replicate n TocOpen ++ ts) ↔ tracks (depth + Z.of_nat n) ts.
Proof.
  revert depth. induction n as [|n IH]; intros depth; simpl.
  - by rewrite Z.add_0_r.
  - rewrite IH. by replace (depth + 1 + Z.of_nat n) with (depth + Z.pos (Pos.of_succ_nat n)) by lia.
Qed.

Lemma tracks_closes n depth ts :
  tracks depth (replicate n TocClose ++ ts) ↔ tracks (depth - Z.of_nat n) ts.
Proof.
  revert depth. induction n as [|n IH]; intros depth; simpl.
  - by rewrite Z.sub_0_r.
  - rewrite IH. by replace (depth - 1 - Z.of_nat n) with (depth - Z.pos (Pos.of_succ_nat n)) by lia.
Qed.

Lemma tracks_toc_tokens depth entries : tracks depth (toc_tokens depth entries).
Proof.
  revert depth. induction entries as [|entry entries IH]; intros depth.
  - simpl. rewrite <- (app_nil_r (replicate _ _)). by apply tracks_closes.
  - simpl. apply tracks_opens, tracks_closes. simpl. split; [lia|].
    replace (depth + Z.of_nat (Z.to_nat (level entry - depth)) -
             Z.of_nat (Z.to_nat (depth - level entry))) with (level entry) by lia.
    apply IH.
Qed.

Lemma depth_after_app depth a b :
  depth_after depth (a ++ b) = depth_after (depth_after depth a) b.
Proof.
  revert depth. induction a as [|[| |e] a IH]; intros depth; simpl; auto.
Qed.

Lemma depth_after_opens n depth :
  depth_after depth (replicate n TocOpen) = depth + Z.of_nat n.
Proof.
  revert depth. induction n as [|n IH]; intros depth; simpl; [lia|].
  rewrite IH. lia.
Qed.

Lemma depth_after_closes n depth :
  depth_after depth (replicate n TocClose) = depth - Z.of_nat n.
Proof.
  revert depth. induction n as [|n IH]; intros depth; simpl; [lia|].
  rewrite IH. lia.
Qed.

Lemma depth_after_toc_tokens depth entries :
  1 ≤ depth → Forall (λ e, 1 ≤ level e) entries →
  depth_after depth (toc_tokens depth entries) = 1.
Proof.
  intros Hd Hall. revert depth Hd.
  induction Hall as [|entry entries He Hall IH]; intros depth Hd; simpl.
  - rewrite depth_after_closes. lia.
  - rewrite !depth_after_app, depth_after_opens, depth_after_closes. simpl.
    replace (depth + Z.of_nat (Z.to_nat (level entry - depth)) -
             Z.of_nat (Z.to_nat (depth - level entry))) with (level entry) by lia.
    by apply IH.
Qed.


(** C4.  For a non-empty heading sequence the table of contents is the
    fixed header, then, starting from depth 1, for each heading one
    opening [<ul>] per unit while the depth is below its level, one
    closing [</ul>] per unit while it is above, and the list item whose
    link has the target [#id] and shows the text of the heading, then
    the closings back to depth 1 and the fixed footer.  Every item
    stands at the depth of its level, so the nesting tracks the
    sequence; with levels of at least 1 the depth ends at 1.  For levels
    1,2,3,2,1 the moves are: item, open, item, open, item, close, item,
    close, item. *)
Theorem toc_nesting_tracks_levels entries :
  entries ≠ [] →
  generate_toc_html entries =
    ("<div class=" +:+ dq +:+ "toc" +:+ dq +:+ ">" +:+ nl +:+
     "<h2>Table of Contents</h2>" +:+ nl +:+ "<ul>" +:+ nl) +:+
    render_tokens (toc_tokens 1 entries) +:+
    ("</ul>" +:+ nl +:+ "</div>" +:+ nl) ∧
  (∀ e, render_tokens [TocItem e] =
        "<li><a href=" +:+ dq +:+ "#" +:+ id e +:+ dq +:+ " data-id=" +:+ dq +:+
        id e +:+ dq +:+ ">" +:+ text e +:+ "</a></li>" +:+ nl) ∧
  render_tokens [TocOpen] = "<ul>" +:+ nl ∧
  render_tokens [TocClose] = "</ul>" +:+ nl ∧
  tracks 1 (toc_tokens 1 entries) ∧
  (Forall (λ e, 1 ≤ level e) entries →
   depth_after 1 (toc_tokens 1 entries) = 1) ∧
  (∀ e1 e2 e3 e4 e5,
     entries = [e1; e2; e3; e4; e5] →
     level <$> entries = [1; 2; 3; 2; 1] →
     toc_tokens 1 entries =
       [TocItem e1; TocOpen; TocItem e2; TocOpen; TocItem e3; TocClose;
        TocItem e4; TocClose; TocItem e5] ∧
     depth_after 1 (toc_tokens 1 entries) = 1).
Proof.
  intros Hne. split_and!.
  - by apply generate_toc_html_tokens.
  - intros e. unfold render_tokens. simpl.
    by rewrite !sapp_assoc, sapp_nil_r.
  - reflexivity.
  - reflexivity.
  - apply tracks_toc_tokens.
  - by apply depth_after_toc_tokens.
  - intros e1 e2 e3 e4 e5 -> [= H1 H2 H3 H4 H5].
    simpl. by rewrite H1, H2, H3, H4, H5.
Qed.

Lemma toc_nesting_tracks_levels_witness :
  let entries :=
    [mkTocEntry 1 "A" "a"; mkTocEntry 2 "B" "b"; mkTocEntry 3 "C" "c";
     mkTocEntry 2 "D" "d"; mkTocEntry 1 "E" "e"] in
  generate_toc_html entries =
    "<div class=" +:+ dq +:+ "toc" +:+ dq +:+ ">" +:+ nl +:+
    "<h2>Table of Contents</h2>" +:+ nl +:+
    "<ul>" +:+ nl +:+
    "<li><a href=" +:+ dq +:+ "#a" +:+ dq +:+ " data-id=" +:+ dq +:+ "a" +:+ dq +:+
      ">A</a></li>" +:+ nl +:+
    "<ul>" +:+ nl +:+
    "<li><a href=" +:+ dq +:+ "#b" +:+ dq +:+ " data-id=" +:+ dq +:+ "b" +:+ dq +:+
      ">B</a></li>" +:+ nl +:+
    "<ul>" +:+ nl +:+
    "<li><a href=" +:+ dq +:+ "#c" +:+ dq +:+ " data-id=" +:+ dq +:+ "c" +:+ dq +:+
      ">C</a></li>" +:+ nl +:+
    "</ul>" +:+ nl +:+
    "<li><a href=" +:+ dq +:+ "#d" +:+ dq +:+ " data-id=" +:+ dq +:+ "d" +:+ dq +:+
      ">D</a></li>" +:+ nl +:+
    "</ul>" +:+ nl +:+
    "<li><a href=" +:+ dq +:+ "#e" +:+ dq +:+ " data-id=" +:+ dq +:+ "e" +:+ dq +:+
      ">E</a></li>" +:+ nl +:+
    "</ul>" +:+ nl +:+
    "</div>" +:+ nl ∧
  tracks 1 (toc_tokens 1 entries) ∧
  depth_after 1 (toc_tokens 1 entries) = 1.
Proof.
  intros entries.
  destruct (toc_nesting_tracks_levels entries)
    as (H1 & _ & _ & _ & H2 & H3 & H4).
  - discriminate.
  - destruct (H4 _ _ _ _ _ eq_refl eq_refl) as [Hmoves _].
    split_and!; [|exact H2|].
    + rewrite H1, Hmoves. reflexivity.
    + apply H3. repeat constructor; simpl; lia.
Defined.

(** ** Headings in the body and in the table of contents *)

Lemma scan_headings_embedded lines :
  let st := scan lines (initial_state []) in
  embeds (heading_element <$> toc st) (html st) ∧
  Forall (λ e, 1 ≤ level e ≤ 6) (toc st).
Proof.
  apply (scan_invariant (λ st,
    embeds (heading_element <$> toc st) (html st) ∧
    Forall (λ e, 1 ≤ level e ≤ 6) (toc st))); [done|].
  intros s l [He Hl].
  destruct (process_line_shape s l)
    as [([x Hx] & Ht & _)|(n & x & Hn & _ & Hx & Ht & _)].
  - rewrite Hx, Ht. split; [by apply embeds_app_r|done].
  - rewrite Hx, Ht, fmap_app. split.
    + by apply embeds_snoc.
    + apply Forall_app. split; [done|]. repeat constructor; simpl; lia.
Qed.







(** ** The page title *)

Lemma scan_toc_extends lines st : ∃ more, toc (scan lines st) = toc st ++ more.
Proof.
  revert st. induction lines as [|l lines IH]; intros st.
  - exists []. by rewrite app_nil_r.
  - destruct (IH (process_line st l)) as [more Hmore].
    change (scan (l :: lines) st) with (scan lines (process_line st l)).
    rewrite Hmore.
    destruct (process_line_shape st l)
      as [(_ & -> & _)|(n & x & _ & _ & _ & -> & _)].
    + by exists more.
    + eexists. by rewrite <- app_assoc.
Qed.

Lemma generate_toc_html_nonempty entries :
  entries ≠ [] → generate_toc_html entries ≠ "".
Proof.
  intros Hne. rewrite generate_toc_html_tokens by done.
  unfold toc_header. by rewrite sapp_cons.
Qed.

Lemma render_page_eq md :
  render_page md =
  generate_html_template (page_title (markdown_to_html md []).2)
    (generate_toc_html (markdown_to_html md []).2) (markdown_to_html md []).1.
Proof. unfold render_page. by destruct (markdown_to_html md []). Qed.

(** C5.  A document without headings gets no table-of-contents block at
    all: in its page nothing stands between the line [<body>] and the
    line that opens the content block, and the [<title>] element holds
    [Document].  A document with headings gets a page whose [<title>]
    element holds the text of the first heading met in the document,
    that is of the first line that appends a heading record, and whose
    table of contents, the block that starts with
    [<div class="toc">], stands before the content block. *)
Theorem page_title_first_heading md :
  let body := (markdown_to_html md []).1 in
  let entries := (markdown_to_html md []).2 in
  let page (title toc_block : string) :=
    "<!DOCTYPE html>" +:+ nl +:+
    "<html lang=" +:+ dq +:+ "en" +:+ dq +:+ ">" +:+ nl +:+
    "<head>" +:+ nl +:+
    "    <meta charset=" +:+ dq +:+ "UTF-8" +:+ dq +:+ ">" +:+ nl +:+
    "    <meta name=" +:+ dq +:+ "viewport" +:+ dq +:+ " content=" +:+ dq +:+
    "width=device-width, initial-scale=1.0" +:+ dq +:+ ">" +:+ nl +:+
    "    <title>" +:+ title +:+ "</title>" +:+ nl +:+
    "    <link rel=" +:+ dq +:+ "stylesheet" +:+ dq +:+ " href=" +:+ dq +:+
    "styles.css" +:+ dq +:+ ">" +:+ nl +:+
    "</head>" +:+ nl +:+
    "<body>" +:+ nl +:+
    toc_block +:+ nl +:+
    "    <div class=" +:+ dq +:+ "content" +:+ dq +:+ ">" +:+ nl +:+
    body +:+ nl +:+
    "    </div>" +:+ nl +:+
    "    <script src=" +:+ dq +:+ "script.js" +:+ dq +:+ "></script>" +:+ nl +:+
    "</body>" +:+ nl +:+
    "</html>" +:+ nl in
  (entries = [] →
   generate_toc_html entries = "" ∧ page_title entries = "Document" ∧
   render_page md = page "Document" "") ∧
  (∀ l1 line l2 e,
     getlines "010" md = l1 ++ line :: l2 →
     toc (scan l1 (initial_state [])) = [] →
     toc (scan (l1 ++ [line]) (initial_state [])) = [e] →
     hd_error entries = Some e ∧ page_title entries = text e ∧
     (∃ rest, generate_toc_html entries =
              "<div class=" +:+ dq +:+ "toc" +:+ dq +:+ ">" +:+ nl +:+ rest) ∧
     render_page md = page (text e) (generate_toc_html entries)).
Proof.
  intros body entries page. split.
  - intros He. rewrite render_page_eq. fold entries body. by rewrite He.
  - intros l1 line l2 e Hlines Hnone Hfirst.
    assert (∃ more, entries = e :: more) as [more Hentries].
    { subst entries. unfold markdown_to_html. simpl. rewrite Hlines.
      replace (l1 ++ line :: l2) with ((l1 ++ [line]) ++ l2)
        by (by rewrite <- app_assoc).
      rewrite scan_app.
      destruct (scan_toc_extends l2 (scan (l1 ++ [line]) (initial_state [])))
        as [more ->].
      rewrite Hfirst. by exists more. }
    rewrite render_page_eq. fold entries body. rewrite Hentries.
    split_and!; try done.
    rewrite generate_toc_html_tokens by done. unfold toc_header.
    rewrite !sapp_assoc. eauto.
Qed.

Lemma page_title_first_heading_witness :
  (let md := "no heading here" +:+ nl in
   render_page md =
   "<!DOCTYPE html>" +:+ nl +:+
   "<html lang=" +:+ dq +:+ "en" +:+ dq +:+ ">" +:+ nl +:+
   "<head>" +:+ nl +:+
   "    <meta charset=" +:+ dq +:+ "UTF-8" +:+ dq +:+ ">" +:+ nl +:+
   "    <meta name=" +:+ dq +:+ "viewport" +:+ dq +:+ " content=" +:+ dq +:+
   "width=device-width, initial-scale=1.0" +:+ dq +:+ ">" +:+ nl +:+
   "    <title>Document</title>" +:+ nl +:+
   "    <link rel=" +:+ dq +:+ "stylesheet" +:+ dq +:+ " href=" +:+ dq +:+
   "styles.css" +:+ dq +:+ ">" +:+ nl +:+
   "</head>" +:+ nl +:+
   "<body>" +:+ nl +:+
   nl +:+
   "    <div class=" +:+ dq +:+ "content" +:+ dq +:+ ">" +:+ nl +:+
   "<p>no heading here</p>" +:+ nl +:+ nl +:+
   "    </div>" +:+ nl +:+
   "    <script src=" +:+ dq +:+ "script.js" +:+ dq +:+ "></script>" +:+ nl +:+
   "</body>" +:+ nl +:+
   "</html>" +:+ nl) ∧
  (let md := "intro" +:+ nl +:+ "## **First**" +:+ nl +:+ "# Second" +:+ nl in
   render_page md =
   "<!DOCTYPE html>" +:+ nl +:+
   "<html lang=" +:+ dq +:+ "en" +:+ dq +:+ ">" +:+ nl +:+
   "<head>" +:+ nl +:+
   "    <meta charset=" +:+ dq +:+ "UTF-8" +:+ dq +:+ ">" +:+ nl +:+
   "    <meta name=" +:+ dq +:+ "viewport" +:+ dq +:+ " content=" +:+ dq +:+
   "width=device-width, initial-scale=1.0" +:+ dq +:+ ">" +:+ nl +:+
   "    <title>First</title>" +:+ nl +:+
   "    <link rel=" +:+ dq +:+ "stylesheet" +:+ dq +:+ " href=" +:+ dq +:+
   "styles.css" +:+ dq +:+ ">" +:+ nl +:+
   "</head>" +:+ nl +:+
   "<body>" +:+ nl +:+
   "<div class=" +:+ dq +:+ "toc" +:+ dq +:+ ">" +:+ nl +:+
   "<h2>Table of Contents</h2>" +:+ nl +:+
   "<ul>" +:+ nl +:+
   "<ul>" +:+ nl +:+
   "<li><a href=" +:+ dq +:+ "#first" +:+ dq +:+ " data-id=" +:+ dq +:+
     "first" +:+ dq +:+ ">First</a></li>" +:+ nl +:+
   "</ul>" +:+ nl +:+
   "<li><a href=" +:+ dq +:+ "#second" +:+ dq +:+ " data-id=" +:+ dq +:+
     "second" +:+ dq +:+ ">Second</a></li>" +:+ nl +:+
   "</ul>" +:+ nl +:+
   "</div>" +:+ nl +:+ nl +:+
   "    <div class=" +:+ dq +:+ "content" +:+ dq +:+ ">" +:+ nl +:+
   "<p>intro</p>" +:+ nl +:+
   "<h2 id=" +:+ dq +:+ "first" +:+ dq +:+ ">First</h2>" +:+ nl +:+
   "<h1 id=" +:+ dq +:+ "second" +:+ dq +:+ ">Second</h1>" +:+ nl +:+ nl +:+
   "    </div>" +:+ nl +:+
   "    <script src=" +:+ dq +:+ "script.js" +:+ dq +:+ "></script>" +:+ nl +:+
   "</body>" +:+ nl +:+
   "</html>" +:+ nl).
Proof.
  split.
  - intros md.
    destruct (page_title_first_heading md) as [H _].
    destruct (H eq_refl) as (_ & _ & H3).
    etrans; [exact H3|]. reflexivity.
  - intros md.
    destruct (page_title_first_heading md) as [_ H].
    destruct (H ["intro"] "## **First**" ["# Second"]
                (mkTocEntry 2 "First" "first") eq_refl eq_refl eq_refl)
      as (_ & _ & _ & H4).
    etrans; [exact H4|]. reflexivity.
Defined.

(** ** Heading lines *)

Lemma replicate_hash_cons m rest :
  Str.replicate (S m) "#" +:+ rest = String "#" (Str.replicate m "#" +:+ rest).
Proof. reflexivity. Qed.

Lemma length_replicate_hash n : String.length (Str.replicate n "#") = n.
Proof.
  induction n as [|n IH]; [done|].
  rewrite replicate_S, slength_app, IH. done.
Qed.

(** A line with more hashes than the pattern asks for is rejected: the
    pattern wants white space after its hashes. *)
Lemma hashes_reject k j rest :
  (1 ≤ k ≤ 5)%nat →
  regex_match (Str.replicate (k + S j) "#" +:+ rest) (h_regex k) = false.
Proof.
  intros Hk. unfold regex_match.
  destruct k as [|[|[|[|[|[|k]]]]]]; try lia;
    simpl Nat.add; rewrite !replicate_hash_cons;
    simpl matches; by apply matches_void.
Qed.

Lemma heading_line_matches n ws t :
  Str.empty ws = false → Str.all isspace ws = true →
  Str.all (λ c, negb (is_line_terminator c)) t = true →
  regex_match (Str.replicate n "#" +:+ ws +:+ t) (h_regex n) = true.
Proof.
  intros Hne Hws Ht. unfold regex_match, h_regex.
  apply matches_Cat_app; [apply matches_Times_lit|].
  apply matches_Cat_app; [by apply matches_Plus_class|].
  by apply matches_Star_class.
Qed.

Lemma drop_while_app p ws t :
  Str.all p ws = true → Str.drop_while p (ws +:+ t) = Str.drop_while p t.
Proof.
  induction ws as [|c ws IH]; [done|].
  rewrite sapp_cons. simpl. intros [Hc Hws]%andb_true_iff.
  rewrite Hc. auto.
Qed.

Lemma heading_capture_eq n ws t :
  Str.all isspace ws = true → Str.drop_while isspace t = t →
  heading_capture n (Str.replicate n "#" +:+ ws +:+ t) = t.
Proof.
  intros Hws Ht. unfold heading_capture.
  pose proof (drop_app_length (Str.replicate n "#") (ws +:+ t) 0) as Hd.
  rewrite Nat.add_0_r, length_replicate_hash in Hd. rewrite Hd.
  change (Str.drop 0 (ws +:+ t)) with (ws +:+ t).
  by rewrite drop_while_app.
Qed.

Ltac reject_level k j :=
  let H := fresh in
  pose proof (hashes_reject k j) as H; simpl Nat.add in H;
  rewrite H by lia; clear H.

Lemma heading_stage_heading st n ws t :
  (1 ≤ n ≤ 6)%nat →
  Str.empty ws = false → Str.all isspace ws = true →
  Str.all (λ c, negb (is_line_terminator c)) t = true →
  heading_stage st (Str.replicate n "#" +:+ ws +:+ t) =
  emit_heading st n (Str.replicate n "#" +:+ ws +:+ t).
Proof.
  intros Hn Hne Hws Ht.
  pose proof (heading_line_matches n ws t Hne Hws Ht) as Hm.
  unfold heading_stage, h1_regex, h2_regex, h3_regex, h4_regex,
    h5_regex, h6_regex.
  destruct n as [|[|[|[|[|[|[|n]]]]]]]; try lia.
  - by rewrite Hm.
  - reject_level 1%nat 0%nat. by rewrite Hm.
  - reject_level 1%nat 1%nat. reject_level 2%nat 0%nat. by rewrite Hm.
  - reject_level 1%nat 2%nat. reject_level 2%nat 1%nat.
    reject_level 3%nat 0%nat. by rewrite Hm.
  - reject_level 1%nat 3%nat. reject_level 2%nat 2%nat.
    reject_level 3%nat 1%nat. reject_level 4%nat 0%nat. by rewrite Hm.
  - reject_level 1%nat 4%nat. reject_level 2%nat 3%nat.
    reject_level 3%nat 2%nat. reject_level 4%nat 1%nat.
    reject_level 5%nat 0%nat. by rewrite Hm.
Qed.

(** C6 (as amended).  Outside a code block, take a line made of [n]
    hashes (1 to 6), a non-empty run of white space and a text (what
    follows the white space) that holds no line terminator.  When the
    line holds no pipe it is a heading line of level [n]: after the
    flush of an active table, the element
    [<hn id="..."> ... </hn>] is appended to the output and the record
    to the heading sequence.  Both carry the text with every [**]
    removed and otherwise unchanged (no inline pattern is applied), and
    the identifier that the assigner returns for this text and the
    current registry.  When the line holds a pipe it is buffered as a
    table row instead: nothing is emitted, no record is appended and no
    identifier is registered. *)
Theorem heading_line_record st n ws t :
  let line := Str.replicate n "#" +:+ ws +:+ t in
  let heading := clean_header_text t in
  let ic := generate_unique_id heading (id_counts st) in
  let st0 := if in_table st then flush_table st else st in
  (1 ≤ n ≤ 6)%nat →
  Str.empty ws = false → Str.all isspace ws = true →
  Str.drop_while isspace t = t →
  Str.all (λ c, negb (is_line_terminator c)) t = true →
  in_code_block st = false →
  (Str.contains "|" line = false →
   heading = strip_bold t ∧
   Str.find_in "**" heading = None ∧
   (Str.find_in "**" t = None → heading = t) ∧
   toc (process_line st line) =
     toc st ++ [mkTocEntry (Z.of_nat n) heading ic.1] ∧
   html (process_line st line) =
     html st0 +:+ "<h" +:+ pretty (Z.of_nat n) +:+ " id=" +:+ dq +:+ ic.1 +:+
     dq +:+ ">" +:+ heading +:+ "</h" +:+ pretty (Z.of_nat n) +:+ ">" +:+ nl ∧
   id_counts (process_line st line) = ic.2) ∧
  (Str.contains "|" line = true →
   process_line st line =
   mkState (html st) (toc st) false (in_table st) (code_lang st)
     (table_rows st ++ [row_cells line]) (id_counts st)).
Proof.
  intros line heading ic st0 Hn Hne Hws Hlead Ht Hcode.
  assert (Hstrip : heading = strip_bold t) by apply clean_header_text_strip.
  assert (∃ rest, line = String "#" rest) as [rest Hrest].
  { subst line. destruct n; [lia|]. rewrite replicate_hash_cons. eauto. }
  assert (Hstage : process_line st line = table_stage st line).
  { unfold process_line.
    rewrite Hrest, hash_line_no_rule, hash_line_no_fence, Hcode. done. }
  split; intros Hpipe.
  - assert (Hstep : process_line st line = emit_heading st0 n line).
    { rewrite Hstage. unfold table_stage.
      rewrite Hrest, hash_line_no_divider, <- Hrest, Hpipe.
      subst st0 line. destruct (in_table st); by apply heading_stage_heading. }
    assert (id_counts st0 = id_counts st) as Hc
      by (subst st0; by destruct (in_table st)).
    assert (toc st0 = toc st) as Htoc by (subst st0; by destruct (in_table st)).
    rewrite Hstep, emit_heading_eq.
    subst line. rewrite heading_capture_eq by done.
    fold heading. rewrite Hc. fold ic. simpl. rewrite Htoc.
    split_and!; try done.
    + rewrite Hstrip. apply strip_bold_no_marker.
    + intros H. rewrite Hstrip. by apply find_in_bold_None.
  - rewrite Hstage. unfold table_stage.
    by rewrite Hrest, hash_line_no_divider, <- Hrest, Hpipe, Hcode.
Qed.

Lemma heading_line_record_witness :
  let st := initial_state [] in
  (let line := "## **Bold** and *it* `c` [l](u)" in
   toc (process_line st line) =
     [mkTocEntry 2 "Bold and *it* `c` [l](u)" "bold-and-it-c-lu"] ∧
   html (process_line st line) =
     "<h2 id=" +:+ dq +:+ "bold-and-it-c-lu" +:+ dq +:+
     ">Bold and *it* `c` [l](u)</h2>" +:+ nl) ∧
  (let line := "###  Size | **kB**" in
   html (process_line st line) = "" ∧ toc (process_line st line) = [] ∧
   table_rows (process_line st line) = [["###  Size"; "<strong>kB</strong>"]]).
Proof.
  intros st. split.
  - intros line.
    destruct (heading_line_record st 2 " " "**Bold** and *it* `c` [l](u)")
      as [H _]; [lia|reflexivity..|].
    destruct (H eq_refl) as (_ & _ & _ & H1 & H2 & _).
    split; [exact H1|]. etrans; [exact H2|]. reflexivity.
  - intros line.
    destruct (heading_line_record st 3 "  " "Size | **kB**")
      as [_ H]; [lia|reflexivity..|].
    pose proof (H eq_refl) as Hrow.
    change (Str.replicate 3 "#" +:+ "  " +:+ "Size | **kB**") with line in Hrow.
    rewrite Hrow. split_and!; reflexivity.
Defined.

(** C6, as stated, fails for a heading line that holds a pipe: outside a
    code block it is buffered as a table row, no heading element is
    emitted and no record is appended. *)
Lemma heading_line_with_pipe_is_a_row :
  let st := process_line (initial_state []) "# A|B" in
  regex_match "# A|B" (h_regex 1) = true ∧
  toc st = [] ∧ html st = "" ∧ table_rows st = [["# A"; "B"]] ∧
  (markdown_to_html ("# A|B" +:+ nl +:+ "text" +:+ nl) []).2 = [].
Proof. vm_compute. split_and!; done. Qed.

(** ** The command line *)

Lemma has_flag_cons short long a args :
  has_flag short long (a :: args) =
  (str_eqb a short || str_eqb a long) || has_flag short long args.
Proof. reflexivity. Qed.

Lemma parse_loop_keeps_markdown args m o b m' o' :
  has_flag "-m" "--markdown" args = false →
  parse_loop args m o = (b, m', o') → m' = m.
Proof.
  remember (length args) as k eqn:Hk. revert args Hk m o.
  induction (lt_wf k) as [k _ IH]. intros args -> m o.
  destruct args as [|arg rest]; [by intros _ [= _ -> _]|].
  rewrite has_flag_cons. intros [Harg Hrest]%orb_false_iff. simpl.
  destruct (str_eqb arg "-h" || str_eqb arg "--help"); [by intros [= _ -> _]|].
  rewrite Harg.
  destruct rest as [|value rest'].
  { by intros [= _ -> _]. }
  destruct (str_eqb arg "-o" || str_eqb arg "--output").
  - rewrite has_flag_cons in Hrest. apply orb_false_iff in Hrest as [_ Hrest].
    eapply IH; [|done|done]. simpl. lia.
  - eapply IH; [|done|done]. simpl. lia.
Qed.

Lemma parse_loop_keeps_output args m o b m' o' :
  has_flag "-o" "--output" args = false →
  parse_loop args m o = (b, m', o') → o' = o.
Proof.
  remember (length args) as k eqn:Hk. revert args Hk m o.
  induction (lt_wf k) as [k _ IH]. intros args -> m o.
  destruct args as [|arg rest]; [by intros _ [= _ _ ->]|].
  rewrite has_flag_cons. intros [Harg Hrest]%orb_false_iff. simpl.
  destruct (str_eqb arg "-h" || str_eqb arg "--help"); [by intros [= _ _ ->]|].
  rewrite Harg.
  destruct rest as [|value rest'].
  { by intros [= _ _ ->]. }
  destruct (str_eqb arg "-m" || str_eqb arg "--markdown").
  - rewrite has_flag_cons in Hrest. apply orb_false_iff in Hrest as [_ Hrest].
    eapply IH; [|done|done]. simpl. lia.
  - eapply IH; [|done|done]. simpl. lia.
Qed.

Lemma parse_loop_no_help args m o :
  has_flag "-h" "--help" args = false → (parse_loop args m o).1.1 = true.
Proof.
  remember (length args) as k eqn:Hk. revert args Hk m o.
  induction (lt_wf k) as [k _ IH]. intros args -> m o.
  destruct args as [|arg rest]; [done|].
  rewrite has_flag_cons. intros [Harg Hrest]%orb_false_iff. simpl.
  rewrite Harg.
  destruct rest as [|value rest']; [done|].
  assert (has_flag "-h" "--help" rest' = false).
  { rewrite has_flag_cons in Hrest. by apply orb_false_iff in Hrest as [_ ?]. }
  repeat case_match; (eapply IH; [|done|done]); simpl; lia.
Qed.

Lemma parse_args_missing argv :
  has_flag "-m" "--markdown" (tail argv) = false ∨
  has_flag "-o" "--output" (tail argv) = false →
  parse_ok (parse_args argv) = false ∧
  parse_cout (parse_args argv) = show_help ∧
  (parse_cerr (parse_args argv) = missing_paths_error ∨
   parse_cerr (parse_args argv) = "") ∧
  (has_flag "-h" "--help" (tail argv) = false →
   parse_cerr (parse_args argv) = missing_paths_error).
Proof.
  intros Hmiss. unfold parse_args.
  pose proof (parse_loop_no_help (tail argv) "" "") as Hhelp.
  destruct (parse_loop (tail argv) "" "") as [[completed m] o] eqn:Hloop.
  simpl in Hhelp. destruct completed; simpl.
  - assert (Str.empty m || Str.empty o = true) as ->.
    { destruct Hmiss as [H|H].
      + by rewrite (parse_loop_keeps_markdown _ _ _ _ _ _ H Hloop).
      + rewrite (parse_loop_keeps_output _ _ _ _ _ _ H Hloop).
        apply orb_true_r. }
    simpl. auto.
  - split_and!; auto. intros H. by apply Hhelp in H.
Qed.

(** C9 (as amended).  When a required flag is missing from the command
    line ([-m]/[--markdown] or [-o]/[--output] does not occur among the
    arguments), the process exits with status 1 without reading or
    writing any file; the usage text goes to standard output, and the
    error stream receives the one-line error message, or nothing when
    the loop over the arguments stopped at [-h]/[--help]. *)
Theorem missing_flag_fails
    (fs_exists : string → option bool) (read_file : string → read_result)
    (create_directories can_write stores : string → bool)
    (parent_path : string → string)
    (path_append : string → string → string) (css js : string)
    (argv : list string) :
  let o := main fs_exists read_file create_directories can_write stores
             parent_path path_append css js argv in
  has_flag "-m" "--markdown" (tail argv) = false ∨
  has_flag "-o" "--output" (tail argv) = false →
  status o = Exit 1 ∧ effects o = [] ∧ cout o = show_help ∧
  (cerr o = missing_paths_error ∨ cerr o = "") ∧
  (has_flag "-h" "--help" (tail argv) = false → cerr o = missing_paths_error).
Proof.
  intros o Hmiss. subst o. unfold main.
  destruct (parse_args_missing argv Hmiss) as (-> & Hout & Herr & Hno).
  simpl. done.
Qed.

Lemma missing_flag_fails_witness :
  let o := main (λ _, Some true) (λ _, Contents "# T") (λ _, true) (λ _, true)
             (λ _, true) (λ p, p) (λ d f, d +:+ "/" +:+ f) "" ""
             ["m2h"; "-m"; "in.md"] in
  status o = Exit 1 ∧ effects o = [] ∧ cout o = show_help ∧
  cerr o = missing_paths_error.
Proof.
  intros o.
  destruct (missing_flag_fails (λ _, Some true) (λ _, Contents "# T")
              (λ _, true) (λ _, true) (λ _, true) (λ p, p)
              (λ d f, d +:+ "/" +:+ f) "" "" ["m2h"; "-m"; "in.md"])
    as (H1 & H2 & H3 & _ & H5).
  - right. reflexivity.
  - split_and!; [exact H1|exact H2|exact H3|]. apply H5. reflexivity.
Defined.

(** C9, as stated, fails: with no flag at all the error stream holds the
    error message only, the usage text is on standard output; and after
    [-h] the error stream holds nothing. *)
Lemma usage_goes_to_standard_output :
  let run := main (λ _, Some true) (λ _, Contents "# T") (λ _, true)
               (λ _, true) (λ _, true) (λ p, p)
               (λ d f, d +:+ "/" +:+ f) "" "" in
  cerr (run ["m2h"]) = missing_paths_error ∧
  Str.find_in show_help (cerr (run ["m2h"])) = None ∧
  cout (run ["m2h"]) = show_help ∧
  cerr (run ["m2h"; "-h"]) = "" ∧
  status (run ["m2h"; "-h"]) = Exit 1.
Proof. vm_compute. split_and!; done. Qed.

(** ** The identifiers of a document *)

Lemma generate_unique_id_eq text counts :
  generate_unique_id text counts =
  match counts !! sanitize_id text with
  | None => (sanitize_id text, <[sanitize_id text := 0]> counts)
  | Some n =>
      (sanitize_id text +:+ "-" +:+ pretty (n + 1),
       <[sanitize_id text := n + 1]> counts)
  end.
Proof. reflexivity. Qed.

Lemma assign_ids_snoc texts t counts :
  assign_ids (texts ++ [t]) counts =
  let '(ids, counts1) := assign_ids texts counts in
  let '(i, counts2) := generate_unique_id t counts1 in
  (ids ++ [i], counts2).
Proof.
  revert counts. induction texts as [|t' texts IH]; intros counts; simpl.
  - by destruct (generate_unique_id t counts).
  - destruct (generate_unique_id t' counts) as [i' c'].
    rewrite IH. destruct (assign_ids texts c') as [ids c1].
    by destruct (generate_unique_id t c1).
Qed.

(** The identifiers of the heading records are those the assigner gives
    to the heading texts, taken in document order from the empty
    registry. *)
Lemma scan_ids_assigned lines :
  let st := scan lines (initial_state []) in
  assign_ids (text <$> toc st) ∅ = (id <$> toc st, id_counts st).
Proof.
  apply (scan_invariant (λ st,
    assign_ids (text <$> toc st) ∅ = (id <$> toc st, id_counts st))); [done|].
  intros s l Hs.
  destruct (process_line_shape s l)
    as [(_ & Ht & Hc)|(n & x & _ & _ & _ & Ht & Hc)].
  - by rewrite Ht, Hc.
  - rewrite Ht, Hc, !fmap_app, !list_fmap_singleton, assign_ids_snoc, Hs.
    simpl. by destruct (generate_unique_id _ (id_counts s)).
Qed.

(** Repeating one heading text gives [base], [base-1], [base-2], ... *)
Lemma assign_ids_repeat text n counts k :
  counts !! sanitize_id text = Some k →
  (assign_ids (replicate n text) counts).1 =
  (λ j, sanitize_id text +:+ "-" +:+ pretty (k + Z.of_nat j)) <$> seq 1 n.
Proof.
  revert counts k. induction n as [|n IH]; intros counts k Hk; [done|].
  simpl replicate. simpl assign_ids. rewrite generate_unique_id_eq, Hk.
  specialize (IH (<[sanitize_id text := k + 1]> counts) (k + 1)
                (lookup_insert_eq _ _ _)).
  destruct (assign_ids (replicate n text) _) as [ids c]. simpl in *.
  rewrite IH. f_equal.
  rewrite <- (fmap_S_seq 1 n).
  change (list_fmap nat string ?f ?l) with (f <$> l).
  rewrite <- list_fmap_compose.
  apply list_fmap_ext. intros _ j _. simpl. do 3 f_equal. lia.
Qed.

Lemma repeated_heading_ids text n :
  (assign_ids (replicate (S n) text) ∅).1 =
  sanitize_id text ::
  ((λ j, sanitize_id text +:+ "-" +:+ pretty (Z.of_nat j)) <$> seq 1 n).
Proof.
  simpl replicate. simpl assign_ids.
  rewrite generate_unique_id_eq, lookup_empty.
  pose proof (assign_ids_repeat text n (<[sanitize_id text := 0]> ∅) 0
                (lookup_insert_eq _ _ _)) as H.
  destruct (assign_ids (replicate n text) _) as [ids c]. simpl in *.
  by rewrite H.
Qed.

Lemma repeated_heading_ids_distinct text n :
  NoDup (assign_ids (replicate (S n) text) ∅).1.
Proof.
  rewrite repeated_heading_ids. apply NoDup_cons. split.
  - intros (j & Hj & _)%list_elem_of_fmap.
    apply (f_equal String.length) in Hj. rewrite slength_app in Hj.
    simpl in Hj. lia.
  - apply NoDup_fmap_2; [|apply NoDup_seq].
    intros i j Hij. apply String.app_inj in Hij.
    apply (String.app_inj "-") in Hij. apply pretty_Z_inj in Hij. lia.
Qed.

(** C3.  The base identifier of a heading text is the text in lower
    case, with a hyphen for each space, without the characters that are
    not alphanumeric, hyphen or underscore.  A base that is not in the
    registry is registered with counter 0 and returned as it is;
    otherwise its counter is incremented and [base-N] is returned, [N]
    the new counter; the other entries of the registry are left alone.
    The scanner assigns the identifiers of a document in this way, in
    document order, from the empty registry: a text repeated gives
    [base], [base-1], [base-2], and so on, and the example document
    yields [title] and [title-1]. *)
Theorem heading_id_assigner (heading : string) (counts : gmap string Z) :
  let base := sanitize_id heading in
  let result := generate_unique_id heading counts in
  base = sanitize_chars heading ∧
  Str.all id_char base = true ∧
  result =
    match counts !! base with
    | None => (base, <[base := 0]> counts)
    | Some n => (base +:+ "-" +:+ pretty (n + 1), <[base := n + 1]> counts)
    end ∧
  result.2 !! base = Some (from_option (λ n, n + 1) 0 (counts !! base)) ∧
  (∀ other, other ≠ base → result.2 !! other = counts !! other) ∧
  (∀ n, (assign_ids (replicate (S n) heading) ∅).1 =
        base :: ((λ j, base +:+ "-" +:+ pretty (Z.of_nat j)) <$> seq 1 n)) ∧
  (∀ md,
     let entries := (markdown_to_html md []).2 in
     id <$> entries = (assign_ids (text <$> entries) ∅).1) ∧
  id <$> (markdown_to_html
            ("# Title" +:+ nl +:+ nl +:+ "Some **bold** text." +:+ nl +:+ nl +:+
             "## Title" +:+ nl) []).2 = ["title"; "title-1"].
Proof.
  intros base result. split_and!.
  - apply sanitize_id_chars.
  - subst base. rewrite sanitize_id_chars. apply sanitize_chars_alphabet.
  - apply generate_unique_id_eq.
  - subst result. rewrite generate_unique_id_eq. fold base.
    destruct (counts !! base); simpl; apply lookup_insert_eq.
  - intros other Hother. subst result. rewrite generate_unique_id_eq.
    fold base. destruct (counts !! base); simpl; by apply lookup_insert_ne.
  - intros n. apply repeated_heading_ids.
  - intros md entries. subst entries. unfold markdown_to_html. simpl.
    by rewrite (scan_ids_assigned (getlines "010" md)).
  - reflexivity.
Qed.

Lemma heading_id_assigner_witness :
  (generate_unique_id "Some Title!" (<["some-title" := 2]> ∅)).2 !! "other" =
  (<["some-title" := 2]> ∅ : gmap string Z) !! "other".
Proof.
  destruct (heading_id_assigner "Some Title!" (<["some-title" := 2]> ∅))
    as (_ & _ & _ & _ & H & _).
  apply (H "other"). discriminate.
Defined.

(** C1.  The identifiers of a document are not always distinct: the
    third heading of the document below has the literal text [A-1],
    whose base identifier is the identifier already given to the second
    heading [A]. *)
Theorem heading_ids_can_collide :
  let md := "# A" +:+ nl +:+ "# A" +:+ nl +:+ "# A-1" +:+ nl in
  let ids := id <$> (markdown_to_html md []).2 in
  ids = ["a"; "a-1"; "a-1"] ∧ ¬ NoDup ids.
Proof.
  split; [reflexivity|].
  intros H. vm_compute in H.
  apply NoDup_cons in H as [_ H]. apply NoDup_cons in H as [H _].
  apply H. by left.
Qed.

(** The counters of the registry stay below the number of headings, so
    the [int] counters of the source do not overflow on a document with
    fewer than [2^31] lines. *)
Lemma scan_counts_bounded lines base c :
  let st := scan lines (initial_state []) in
  id_counts st !! base = Some c → 0 ≤ c < Z.of_nat (length (toc st)).
Proof.
  intros st. subst st. revert base c.
  apply (scan_invariant (λ st, ∀ base c,
    id_counts st !! base = Some c → 0 ≤ c < Z.of_nat (length (toc st)))).
  { intros base c. simpl. by rewrite lookup_empty. }
  intros s l Hs base c.
  destruct (process_line_shape s l)
    as [(_ & Ht & Hc)|(n & x & _ & _ & _ & Ht & Hc)].
  - rewrite Ht, Hc. apply Hs.
  - rewrite Ht, Hc, length_app, generate_unique_id_eq. simpl.
    destruct (id_counts s !! sanitize_id _) as [k|] eqn:Hk; simpl.
    + rewrite lookup_insert. case_decide.
      * intros [= <-]. apply Hs in Hk. lia.
      * intros H'. apply Hs in H'. lia.
    + rewrite lookup_insert. case_decide.
      * intros [= <-]. lia.
      * intros H'. apply Hs in H'. lia.
Qed.

Lemma scan_toc_length lines st :
  (length (toc (scan lines st)) ≤ length (toc st) + length lines)%nat.
Proof.
  revert st. induction lines as [|l lines IH]; intros st; simpl; [lia|].
  change (scan (l :: lines) st) with (scan lines (process_line st l)).
  specialize (IH (process_line st l)).
  destruct (process_line_shape st l)
    as [(_ & Ht & _)|(n & x & _ & _ & _ & Ht & _)];
    rewrite Ht in IH; rewrite ?length_app in IH; simpl in IH; lia.
Qed.

(** ** What [main] writes *)

Lemma main_success fs_exists read_file create_directories can_write stores
    parent_path path_append css js argv :
  let o := main fs_exists read_file create_directories can_write stores
             parent_path path_append css js argv in
  status o = Exit 0 →
  ∃ md, read_file (markdown_path (parse_args argv)) = Contents md ∧
        WriteFile (output_path (parse_args argv)) (render_page md)
          (stores (output_path (parse_args argv))) ∈ effects o.
Proof.
  intros o. subst o. unfold main, write_files.
  repeat case_match; simpl; try done;
    intros _; eexists; (split; [done|]);
    rewrite ?elem_of_app, ?elem_of_cons; tauto.
Qed.

(** ** Examples from the specification *)

Example inline_formatting_composes :
  (markdown_to_html ("**a** and *b* and `c`" +:+ nl) []).1 =
  "<p><strong>a</strong> and <em>b</em> and <code>c</code></p>" +:+ nl.
Proof. reflexivity. Qed.

Example three_row_table :
  (markdown_to_html
     ("h1 | h2" +:+ nl +:+ "---|---" +:+ nl +:+ "a | b" +:+ nl +:+
      "c | d" +:+ nl) []).1 =
  "<table>" +:+ nl +:+
  "<tr><th>h1</th><th>h2</th></tr>" +:+ nl +:+
  "<tr><td>a</td><td>b</td></tr>" +:+ nl +:+
  "<tr><td>c</td><td>d</td></tr>" +:+ nl +:+
  "</table>" +:+ nl.
Proof. reflexivity. Qed.

Example unclosed_code_block_stays_open :
  (markdown_to_html ("```sh" +:+ nl +:+ "ls" +:+ nl) []).1 =
  "<pre><code class=" +:+ dq +:+ "language-sh" +:+ dq +:+ ">" +:+ nl +:+
  "ls" +:+ nl.
Proof. reflexivity. Qed.

Example rows_without_divider_are_never_emitted :
  (markdown_to_html ("a|b" +:+ nl +:+ "c|d" +:+ nl +:+ "text" +:+ nl) []).1 =
  "<p>text</p>" +:+ nl.
Proof. reflexivity. Qed.

Example sanitize_example :
  sanitize_id "Hello, World_1 - x!" = "hello-world_1---x".
Proof. reflexivity. Qed.

Example clean_header_text_example :
  clean_header_text "a ****b** *c* ***" = "a b *c* *".
Proof. reflexivity. Qed.

(** * Further properties of the code *)

(** ** [sanitize_id] *)

Lemma url_char_fixed c :
  url_char c = true →
  id_char (if char_eqb (tolower c) " " then "-"%char else tolower c) = true ∧
  (if char_eqb (tolower c) " " then "-"%char else tolower c) = c.
Proof. revert c. by_chars. Qed.

Lemma id_char_normal c :
  id_char (if char_eqb (tolower c) " " then "-"%char else tolower c) = true →
  url_char (if char_eqb (tolower c) " " then "-"%char else tolower c) = true.
Proof. revert c. by_chars. Qed.

Lemma id_char_kept c :
  id_char (if char_eqb (tolower c) " " then "-"%char else tolower c) =
  kept_char c.
Proof. revert c. by_chars. Qed.

Lemma sanitize_chars_url s : Str.all url_char (sanitize_chars s) = true.
Proof.
  induction s as [|c s IH]; [done|]. simpl.
  destruct (id_char _) eqn:E; [|done]. simpl.
  by rewrite (id_char_normal c E).
Qed.

Lemma sanitize_chars_fixed s :
  Str.all url_char s = true → sanitize_chars s = s.
Proof.
  induction s as [|c s IH]; [done|]. simpl.
  intros [Hc Hs]%andb_true_iff.
  destruct (url_char_fixed c Hc) as [-> ->]. by rewrite IH.
Qed.

Lemma sanitize_chars_length s :
  (String.length (sanitize_chars s) ≤ String.length s)%nat.
Proof.
  induction s as [|c s IH]; [done|]. simpl.
  destruct (id_char _); simpl; lia.
Qed.

(** X1.  [sanitize_id] is idempotent, its result is made of lower-case
    letters, digits, hyphens and underscores only, it is never longer
    than the text, and the identifier of a concatenation is the
    concatenation of the identifiers. *)
Theorem sanitize_id_idempotent (a b : string) :
  sanitize_id (sanitize_id a) = sanitize_id a ∧
  Str.all url_char (sanitize_id a) = true ∧
  (String.length (sanitize_id a) ≤ String.length a)%nat ∧
  sanitize_id (a +:+ b) = sanitize_id a +:+ sanitize_id b.
Proof.
  rewrite !sanitize_id_chars. split_and!.
  - apply sanitize_chars_fixed, sanitize_chars_url.
  - apply sanitize_chars_url.
  - apply sanitize_chars_length.
  - apply sanitize_chars_app.
Qed.

Lemma sanitize_chars_empty s :
  sanitize_chars s = "" ↔ Str.all (λ c, negb (kept_char c)) s = true.
Proof.
  induction s as [|c s IH]; [done|]. simpl.
  rewrite id_char_kept. destruct (kept_char c); simpl; [split; done|done].
Qed.

(** X2.  A heading text without any letter, digit, space, hyphen or
    underscore of the ASCII range (punctuation only, or a text in
    another script, whose bytes are all above 127) has the empty
    identifier: its first occurrence gets the identifier [""], the
    second one [-1]. *)
Theorem empty_identifier (t : string) :
  Str.all (λ c, negb (kept_char c)) t = true →
  sanitize_id t = "" ∧
  generate_unique_id t ∅ = ("", {[ "" := 0 ]}) ∧
  (generate_unique_id t {[ "" := 0 ]}).1 = "-1".
Proof.
  intros H. apply sanitize_chars_empty in H. rewrite <- sanitize_id_chars in H.
  rewrite !generate_unique_id_eq, H. split_and!; try done.
Qed.

Lemma empty_identifier_witness :
  sanitize_id "?!" = "" ∧
  generate_unique_id "?!" ∅ = ("", {[ "" := 0 ]}) ∧
  (generate_unique_id "?!" {[ "" := 0 ]}).1 = "-1".
Proof. apply (empty_identifier "?!"). reflexivity. Defined.

(** ** [clean_header_text] *)

Lemma strip_bold_length s :
  (String.length (strip_bold s) ≤ String.length s)%nat.
Proof.
  remember (String.length s) as n eqn:Hn.
  revert s Hn. induction (lt_wf n) as [n _ IH]. intros s ->.
  destruct s as [|c s]; [done|].
  destruct s as [|c' s']; [done|].
  rewrite strip_bold_cons2.
  destruct (char_eqb c "*" && char_eqb c' "*").
  - specialize (IH (String.length s') ltac:(simpl; lia) s' eq_refl).
    simpl. lia.
  - specialize (IH (String.length (String c' s')) ltac:(simpl; lia) _ eq_refl).
    simpl in *. lia.
Qed.

(** X3.  [clean_header_text] leaves no [**] in its result, is idempotent,
    never lengthens the text, and returns a text without [**] as it
    is. *)
Theorem clean_header_text_idempotent (t : string) :
  Str.find_in "**" (clean_header_text t) = None ∧
  clean_header_text (clean_header_text t) = clean_header_text t ∧
  (String.length (clean_header_text t) ≤ String.length t)%nat ∧
  (Str.find_in "**" t = None → clean_header_text t = t).
Proof.
  rewrite !clean_header_text_strip. split_and!.
  - apply strip_bold_no_marker.
  - apply find_in_bold_None, strip_bold_no_marker.
  - apply strip_bold_length.
  - apply find_in_bold_None.
Qed.

Lemma clean_header_text_idempotent_witness :
  clean_header_text "no marker *here*" = "no marker *here*".
Proof.
  destruct (clean_header_text_idempotent "no marker *here*") as (_ & _ & _ & H).
  apply H. reflexivity.
Defined.

(** ** Trimming a table cell *)

Lemma ltrim_split s :
  ∃ l, s = l +:+ Str.drop_while is_blank s ∧ Str.all is_blank l = true ∧
       starts_blank (Str.drop_while is_blank s) = false.
Proof.
  induction s as [|c s (l & Hs & Hl & Hb)]; [by exists ""|].
  simpl. destruct (is_blank c) eqn:E.
  - exists (String c l). rewrite sapp_cons, <- Hs. simpl. by rewrite E.
  - exists "". by simpl.
Qed.

Lemma rtrim_split s :
  ∃ r, s = rtrim s +:+ r ∧ Str.all is_blank r = true ∧
       ends_blank (rtrim s) = false.
Proof.
  induction s as [|c s (r & Hs & Hr & Hb)]; [by exists ""|].
  simpl. destruct (rtrim s) as [|d t] eqn:Ht; simpl.
  - rewrite sapp_nil_l in Hs. subst r.
    destruct (is_blank c) eqn:E.
    + exists (String c s). rewrite sapp_nil_l. simpl. by rewrite E, Hr.
    + exists s. unfold ends_blank. simpl. by rewrite E.
  - exists r. rewrite sapp_cons, <- Hs. split_and!; done.
Qed.

Lemma rtrim_keeps_start s :
  starts_blank s = false → starts_blank (rtrim s) = false.
Proof.
  destruct s as [|c s]; [done|]. simpl. intros E.
  by rewrite E, andb_false_r.
Qed.

Lemma rtrim_fixed s : ends_blank s = false → rtrim s = s.
Proof.
  induction s as [|c s IH]; [done|].
  unfold ends_blank. simpl. destruct s as [|d s'].
  - simpl. by intros ->.
  - intros H. rewrite IH by done. done.
Qed.

Lemma ltrim_fixed s : starts_blank s = false → Str.drop_while is_blank s = s.
Proof. destruct s as [|c s]; [done|]. simpl. by intros ->. Qed.

(** X4.  Trimming a cell removes a run of spaces and tabs at each end and
    nothing else: the cell is the trimmed cell between two runs of
    blanks, the trimmed cell neither starts nor ends with a blank, and
    trimming twice changes nothing more. *)
Theorem trim_cell (s : string) :
  (∃ l r, s = l +:+ trim s +:+ r ∧
          Str.all is_blank l = true ∧ Str.all is_blank r = true) ∧
  starts_blank (trim s) = false ∧
  ends_blank (trim s) = false ∧
  trim (trim s) = trim s.
Proof.
  unfold trim.
  destruct (ltrim_split s) as (l & Hs & Hl & Hstart).
  destruct (rtrim_split (Str.drop_while is_blank s)) as (r & Hs' & Hr & Hend).
  pose proof (rtrim_keeps_start _ Hstart) as Hstart'.
  split_and!; try done.
  - exists l, r. by rewrite <- Hs', <- Hs.
  - by rewrite ltrim_fixed, rtrim_fixed.
Qed.

(** ** The lines of a text *)

Lemma lines_of_nil delim s : lines_of delim s = [] → s = "".
Proof.
  destruct s as [|c s]; [done|]. simpl.
  destruct (char_eqb c delim); [done|]. by destruct (lines_of delim s).
Qed.

Lemma unlines_cons delim l segs :
  unlines delim (l :: segs) = l +:+ String delim (unlines delim segs).
Proof. unfold unlines. rewrite fmap_cons, concat_cons. by rewrite sapp_assoc. Qed.

Lemma terminated_cons delim c s :
  s ≠ "" → terminated delim (String c s) = terminated delim s.
Proof. unfold terminated. simpl. by destruct s. Qed.

Lemma unlines_lines_of delim s :
  unlines delim (lines_of delim s) =
  if terminated delim s then s else s +:+ String delim "".
Proof.
  induction s as [|c s IH]; [done|]. simpl.
  destruct (char_eqb c delim) eqn:E.
  - apply char_eqb_eq in E as ->. rewrite unlines_cons, IH. simpl.
    destruct s as [|d s']; [by unfold terminated; simpl; rewrite char_eqb_refl|].
    rewrite (terminated_cons delim delim (String d s')) by done.
    rewrite sapp_nil_l. by destruct (terminated delim _).
  - destruct (lines_of delim s) as [|l ls] eqn:L.
    + apply lines_of_nil in L as ->. unfold terminated. simpl. by rewrite E.
    + assert (s ≠ "") by (by intros ->).
      rewrite (terminated_cons delim c s) by done.
      rewrite unlines_cons. rewrite unlines_cons in IH.
      rewrite sapp_cons, IH. by destruct (terminated delim s).
Qed.

Lemma lines_of_no_delim delim s :
  Forall (λ l, Str.contains delim l = false) (lines_of delim s).
Proof.
  induction s as [|c s IH]; [constructor|]. simpl.
  destruct (char_eqb c delim) eqn:E; [by constructor|].
  destruct (lines_of delim s) as [|l ls]; [repeat constructor; simpl; by rewrite E|].
  inversion_clear IH. constructor; [|done]. simpl. by rewrite E.
Qed.

Lemma lines_of_unlines delim segs :
  Forall (λ l, Str.contains delim l = false) segs →
  lines_of delim (unlines delim segs) = segs.
Proof.
  induction 1 as [|l segs Hl _ IH]; [done|].
  rewrite unlines_cons. induction l as [|c l IHl].
  - rewrite sapp_nil_l. simpl. by rewrite char_eqb_refl, IH.
  - simpl in Hl. apply orb_false_iff in Hl as [Hc Hl].
    rewrite sapp_cons. simpl. rewrite Hc, (IHl Hl). done.
Qed.

(** X5.  The [getline] loop and the text determine each other: joining
    the lines it reads, each followed by the delimiter, gives the text
    back (with the delimiter added when the text did not end with it);
    no line it reads holds the delimiter; and from a text made of lines
    without the delimiter, each followed by it, it reads exactly these
    lines. *)
Theorem getlines_round_trip (delim : ascii) (s : string) (segs : list string) :
  unlines delim (getlines delim s) =
    (if terminated delim s then s else s +:+ String delim "") ∧
  Forall (λ l, Str.contains delim l = false) (getlines delim s) ∧
  (Forall (λ l, Str.contains delim l = false) segs →
   getlines delim (unlines delim segs) = segs).
Proof.
  rewrite !getlines_lines. split_and!.
  - apply unlines_lines_of.
  - apply lines_of_no_delim.
  - apply lines_of_unlines.
Qed.

Lemma getlines_round_trip_witness :
  getlines "010" (unlines "010" ["# T"; ""; "text"]) = ["# T"; ""; "text"].
Proof.
  destruct (getlines_round_trip "010" "" ["# T"; ""; "text"]) as (_ & _ & H).
  apply H. repeat constructor.
Defined.

(** ** Blank lines and the final newline *)

Lemma process_line_blank st : process_line st "" = st.
Proof. reflexivity. Qed.

Lemma scan_cons l lines st : scan (l :: lines) st = scan lines (process_line st l).
Proof. reflexivity. Qed.

Lemma scan_without_blank lines st :
  scan (filter (λ l, l ≠ "") lines) st = scan lines st.
Proof.
  revert st. induction lines as [|l lines IH]; intros st; [done|].
  destruct (decide (l = "")) as [->|Hl].
  - rewrite filter_cons_False by (by intros []). by rewrite scan_cons, IH.
  - rewrite filter_cons_True by done. by rewrite !scan_cons, IH.
Qed.

Lemma lines_of_app_delim delim s :
  lines_of delim (s +:+ String delim "") =
  if terminated delim s then lines_of delim s ++ [""] else lines_of delim s.
Proof.
  induction s as [|c s IH].
  - rewrite sapp_nil_l. simpl. by rewrite char_eqb_refl.
  - rewrite sapp_cons. simpl. rewrite IH.
    destruct s as [|d s'].
    { unfold terminated. simpl. by destruct (char_eqb c delim). }
    rewrite (terminated_cons delim c (String d s')) by done.
    destruct (char_eqb c delim).
    + by destruct (terminated delim (String d s')).
    + destruct (lines_of delim (String d s')) as [|l ls] eqn:L.
      { by apply lines_of_nil in L. }
      by destruct (terminated delim (String d s')).
Qed.

(** X6.  Blank lines and a newline added at the end of the document leave
    the result as it is: the scanner reaches the same state with and
    without the blank lines, and a text gives the same body and heading
    records with one more newline at its end. *)
Theorem blank_lines_ignored (lines : list string) (st : scan_state)
    (markdown : string) (toc0 : list TocEntry) :
  scan (filter (λ l, l ≠ "") lines) st = scan lines st ∧
  markdown_to_html (markdown +:+ nl) toc0 = markdown_to_html markdown toc0.
Proof.
  split; [apply scan_without_blank|].
  unfold markdown_to_html. rewrite !getlines_lines.
  change nl with (String "010" "").
  rewrite lines_of_app_delim.
  destruct (terminated "010" markdown); [|done].
  by rewrite scan_app.
Qed.

(** From a text made of lines without a newline, each followed by a
    newline, the scanner processes exactly these lines, in order. *)
Lemma markdown_to_html_lines (lines : list string) (toc0 : list TocEntry) :
  Forall (λ l, Str.contains "010" l = false) lines →
  markdown_to_html (unlines "010" lines) toc0 =
  (flush_table_at_end (scan lines (initial_state toc0)),
   toc (scan lines (initial_state toc0))).
Proof.
  intros H. unfold markdown_to_html.
  by rewrite getlines_lines, lines_of_unlines.
Qed.

(** ** The output only grows *)

(** X7.  The scanner only ever appends: after more lines, the output and
    the heading sequence are those reached before, followed by what the
    new lines added.  Nothing emitted is changed or removed later, and
    no heading record is changed or removed. *)
Theorem scan_appends (l1 l2 : list string) (st : scan_state) :
  ∃ x more,
    html (scan (l1 ++ l2) st) = html (scan l1 st) +:+ x ∧
    toc (scan (l1 ++ l2) st) = toc (scan l1 st) ++ more.
Proof.
  rewrite scan_app. generalize (scan l1 st). clear. intros st.
  revert st. induction l2 as [|l lines IH]; intros st.
  - exists "", []. by rewrite sapp_nil_r, app_nil_r.
  - rewrite scan_cons.
    destruct (IH (process_line st l)) as (x & more & Hx & Hmore).
    rewrite Hx, Hmore.
    destruct (process_line_shape st l)
      as [([y Hy] & Ht & _)|(n & y & _ & _ & Hy & Ht & _)];
      rewrite Hy, Ht.
    + exists (y +:+ x), more. by rewrite sapp_assoc.
    + exists
        ((y +:+
          heading_html (Z.of_nat n)
            (generate_unique_id (clean_header_text (heading_capture n l))
               (id_counts st)).1
            (clean_header_text (heading_capture n l))) +:+ x).
      eexists. split; [by rewrite !sapp_assoc|]. by rewrite <- app_assoc.
Qed.

(** ** Lines between two fences *)

Lemma code_line_state st line :
  in_code_block st = true →
  regex_match line code_block_regex = false →
  toc (process_line st line) = toc st ∧
  id_counts (process_line st line) = id_counts st ∧
  in_table (process_line st line) = in_table st ∧
  table_rows (process_line st line) = table_rows st ∧
  code_lang (process_line st line) = code_lang st ∧
  in_code_block (process_line st line) = true.
Proof.
  intros Hcode Hf. unfold process_line. rewrite Hf, Hcode.
  by repeat case_match.
Qed.

(** X8.  Whatever stands between two fences leaves everything but the
    output alone: lines that are not fence lines, read in code-block
    mode, add no heading record, register no identifier, buffer no table
    row and change neither mode, even when they look like headings,
    dividers or rows. *)
Theorem code_block_isolates (lines : list string) (st : scan_state) :
  in_code_block st = true →
  Forall (λ l, regex_match l code_block_regex = false) lines →
  toc (scan lines st) = toc st ∧
  id_counts (scan lines st) = id_counts st ∧
  in_table (scan lines st) = in_table st ∧
  table_rows (scan lines st) = table_rows st ∧
  in_code_block (scan lines st) = true.
Proof.
  intros Hcode Hall. revert st Hcode.
  induction Hall as [|l lines Hl _ IH]; intros st Hcode; [done|].
  rewrite scan_cons.
  destruct (code_line_state st l Hcode Hl) as (<- & <- & <- & <- & _ & Hc).
  by apply IH.
Qed.

Lemma code_block_isolates_witness :
  let st := process_line (initial_state []) "```" in
  toc (scan ["# Heading"; "a|b"; "-|-"; "c|d"; "text"] st) = [] ∧
  table_rows (scan ["# Heading"; "a|b"; "-|-"; "c|d"; "text"] st) = [].
Proof.
  intros st.
  destruct (code_block_isolates ["# Heading"; "a|b"; "-|-"; "c|d"; "text"] st)
    as (H1 & _ & _ & H2 & _); [reflexivity|repeat constructor|].
  split; [exact H1|exact H2].
Defined.

(** ** Fence lines *)

Lemma fence_line_matches lang :
  Str.all (λ c, negb (is_line_terminator c)) lang = true →
  regex_match ("```" +:+ lang) code_block_regex = true.
Proof.
  intros H. unfold regex_match, code_block_regex.
  apply matches_Cat_app; [apply (matches_Times_lit 3 "`")|].
  by apply matches_Star_class.
Qed.

(** X9.  A line of three backticks and a label without line terminator
    toggles code-block mode, whatever else the state holds (a pending
    table is neither flushed nor dropped).  Outside a code block it
    opens one: the opening tags are emitted, with a class
    [language-label] exactly when the label is not empty, the label
    being copied as it is.  Inside a code block it closes it, and what
    follows the backticks is ignored. *)
Theorem fence_line_toggles (st : scan_state) (lang : string) :
  let line := "```" +:+ lang in
  Str.all (λ c, negb (is_line_terminator c)) lang = true →
  (in_code_block st = false →
   process_line st line =
   mkState
     (html st +:+ "<pre><code" +:+
      (if Str.empty lang then ""
       else " class=" +:+ dq +:+ "language-" +:+ lang +:+ dq) +:+ ">" +:+ nl)
     (toc st) true (in_table st) lang (table_rows st) (id_counts st)) ∧
  (in_code_block st = true →
   process_line st line =
   mkState (html st +:+ "</code></pre>" +:+ nl) (toc st) false (in_table st)
     (code_lang st) (table_rows st) (id_counts st)).
Proof.
  intros line Hlang.
  assert (Hstep : process_line st line = fence st line).
  { unfold process_line.
    assert (regex_match line horizontal_rule_regex = false) as ->
      by exact (matches_void (deriv "`" horizontal_rule_regex)
                  ("``" +:+ lang) eq_refl).
    subst line. by rewrite fence_line_matches. }
  rewrite Hstep. unfold fence. subst line. split; intros ->; reflexivity.
Qed.

Lemma fence_line_toggles_witness :
  let st := process_line (initial_state []) "```c++" in
  html st =
    "<pre><code class=" +:+ dq +:+ "language-c++" +:+ dq +:+ ">" +:+ nl ∧
  in_code_block (process_line st "```") = false.
Proof.
  intros st.
  destruct (fence_line_toggles (initial_state []) "c++" eq_refl) as [H1 _].
  destruct (fence_line_toggles st "" eq_refl) as [_ H2].
  split.
  - exact (f_equal html (H1 eq_refl)).
  - exact (f_equal in_code_block (H2 eq_refl)).
Defined.

(** ** Tables without a divider, dividers after rows *)

Lemma row_line_step st line :
  in_code_block st = false → row_line line →
  process_line st line =
  mkState (html st) (toc st) false (in_table st) (code_lang st)
    (table_rows st ++ [row_cells line]) (id_counts st).
Proof.
  intros Hcode (Hp & Hd & Hf). unfold process_line.
  rewrite (pipe_line_no_rule line Hp), Hf, Hcode.
  destruct line as [|c line]; [done|]. simpl Str.empty. cbv iota.
  unfold table_stage. by rewrite Hd, Hp, Hcode.
Qed.

(** X10.  Pipe lines that no divider follows are lost: a run of pipe
    lines (no divider, no fence) read outside a code block only fills
    the table buffer, emits nothing and adds no heading, and if the
    document ends there the buffered rows are not rendered. *)
Theorem rows_without_divider_are_dropped (lines : list string)
    (toc0 : list TocEntry) :
  Forall row_line lines →
  let st := scan lines (initial_state toc0) in
  html st = "" ∧ toc st = toc0 ∧ in_table st = false ∧
  table_rows st = row_cells <$> lines ∧
  flush_table_at_end st = "".
Proof.
  intros Hall.
  assert (H : ∀ st, in_code_block st = false →
    scan lines st =
    mkState (html st) (toc st) false (in_table st) (code_lang st)
      (table_rows st ++ (row_cells <$> lines)) (id_counts st)).
  { induction Hall as [|l lines Hl _ IH]; intros st Hcode.
    - simpl. rewrite app_nil_r. destruct st. simpl in *. by subst.
    - rewrite scan_cons, (row_line_step st l Hcode Hl), IH by done.
      simpl. by rewrite <- app_assoc. }
  intros st. subst st. rewrite H by done. simpl.
  unfold flush_table_at_end. simpl. done.
Qed.

Lemma rows_without_divider_are_dropped_witness :
  flush_table_at_end (scan ["a | b"; "c | d"] (initial_state [])) = "".
Proof.
  destruct (rows_without_divider_are_dropped ["a | b"; "c | d"] [])
    as (_ & _ & _ & _ & H); [|exact H].
  repeat constructor.
Defined.

Lemma no_divider_keeps_table_off st line :
  regex_match line table_divider_regex = false →
  in_table st = false → in_table (process_line st line) = false.
Proof.
  intros Hd Ht. unfold process_line.
  case_match; [done|]. case_match; [done|].
  case_match; [unfold fence; by case_match|].
  case_match; [done|].
  unfold table_stage. rewrite Hd, Ht.
  case_match; [done|].
  unfold heading_stage.
  repeat (case_match; [by rewrite emit_heading_eq|]).
  unfold paragraph. by case_match.
Qed.

(** X11.  Without a divider line there is no table: when no line of the
    document is a table-divider line, table mode is never active and
    the flush at the end of the document adds nothing. *)
Theorem no_divider_no_table (lines : list string) (toc0 : list TocEntry) :
  Forall (λ l, regex_match l table_divider_regex = false) lines →
  in_table (scan lines (initial_state toc0)) = false ∧
  flush_table_at_end (scan lines (initial_state toc0)) =
    html (scan lines (initial_state toc0)).
Proof.
  intros Hall.
  assert (H : ∀ st, in_table st = false → in_table (scan lines st) = false).
  { induction Hall as [|l lines Hl _ IH]; intros st Ht; [done|].
    rewrite scan_cons. by apply IH, no_divider_keeps_table_off. }
  specialize (H (initial_state toc0) eq_refl).
  split; [done|]. unfold flush_table_at_end. by rewrite H.
Qed.

Lemma no_divider_no_table_witness :
  in_table (scan ["a|b"; "text"; "c|d"] (initial_state [])) = false.
Proof.
  destruct (no_divider_no_table ["a|b"; "text"; "c|d"] []) as [H _]; [|exact H].
  repeat constructor.
Defined.

(** X12.  A divider line read outside a code block after rows were
    buffered activates table mode and emits nothing; a divider line
    read while table mode is already active is not a divider any more:
    it comes out as a paragraph, before the table, which stays
    buffered. *)
Theorem divider_after_rows (st : scan_state) (line : string) :
  regex_match line table_divider_regex = true →
  in_code_block st = false →
  (in_table st = false → table_rows st ≠ [] →
   process_line st line =
   mkState (html st) (toc st) false true (code_lang st) (table_rows st)
     (id_counts st)) ∧
  (in_table st = true →
   process_line st line = emit st ("<p>" +:+ line +:+ "</p>" +:+ nl)).
Proof.
  intros Hd Hcode.
  destruct (divider_line_facts line Hd) as (Hne & Hr & Hf & Hh & Hplain).
  assert (Hstep : process_line st line = table_stage st line).
  { unfold process_line. by rewrite Hne, Hr, Hf, Hcode. }
  rewrite Hstep. unfold table_stage. rewrite Hd. split.
  - intros -> Hrows. rewrite bool_decide_eq_false_2 by done. simpl.
    by rewrite Hcode.
  - intros ->. simpl. rewrite heading_stage_no_heading by done.
    by apply paragraph_plain.
Qed.

Lemma divider_after_rows_witness :
  let st := process_line (initial_state []) "a|b" in
  in_table (process_line st "-|-") = true ∧
  html (process_line (process_line st "-|-") "-|-") = "<p>-|-</p>" +:+ nl.
Proof.
  intros st.
  destruct (divider_after_rows st "-|-" eq_refl eq_refl) as [H1 _].
  destruct (divider_after_rows (process_line st "-|-") "-|-" eq_refl eq_refl)
    as [_ H2].
  split.
  - exact (f_equal in_table (H1 eq_refl ltac:(discriminate))).
  - exact (f_equal html (H2 eq_refl)).
Defined.

(** ** Ordinary text *)

Lemma rule_has_rule_char : must_hit rule_char horizontal_rule_regex.
Proof. simpl. right. left. left. done. Qed.

Lemma ordinary_line_facts line :
  Str.empty line = false → Str.all ordinary_char line = true →
  regex_match line horizontal_rule_regex = false ∧
  regex_match line code_block_regex = false ∧
  regex_match line table_divider_regex = false ∧
  Str.contains "|" line = false ∧
  (∀ n, (1 ≤ n)%nat → regex_match line (h_regex n) = false) ∧
  Str.all (λ c, negb (inline_opener c)) line = true.
Proof.
  intros Hne Hall. split_and!.
  - apply (matches_must_hit rule_char); [apply rule_has_rule_char|].
    eapply all_impl; [|done]. by_chars.
  - eapply (matches_no_char ordinary_char "`"); [apply fence_has_backtick| |done].
    by_chars.
  - eapply (matches_no_char ordinary_char "|"); [apply divider_has_pipe| |done].
    by_chars.
  - rewrite contains_all. apply negb_false_iff.
    eapply all_impl; [|done]. by_chars.
  - intros n Hn.
    eapply (matches_no_char ordinary_char "#"); [by apply heading_has_hash| |done].
    by_chars.
  - eapply all_impl; [|done]. by_chars.
Qed.

(** X13.  A non-empty line without any of the characters [# | ` * [ - _],
    read outside a code block, becomes a paragraph that holds the line
    byte for byte, after the flush of an active table: nothing in it is
    escaped, so markup characters such as [<], [>], [&] and the double
    quote reach the page as they are. *)
Theorem ordinary_line_is_raw_paragraph (st : scan_state) (line : string) :
  Str.empty line = false → Str.all ordinary_char line = true →
  in_code_block st = false →
  process_line st line =
  emit (if in_table st then flush_table st else st)
    ("<p>" +:+ line +:+ "</p>" +:+ nl).
Proof.
  intros Hne Hall Hcode.
  destruct (ordinary_line_facts line Hne Hall) as (Hr & Hf & Hd & Hp & Hh & Hpl).
  unfold process_line. rewrite Hne, Hr, Hf, Hcode.
  unfold table_stage. rewrite Hd, Hp.
  destruct (in_table st); rewrite heading_stage_no_heading by done;
    by apply paragraph_plain.
Qed.

Lemma ordinary_line_is_raw_paragraph_witness :
  html (process_line (initial_state []) "<script>alert(1)</script> & more") =
  "<p><script>alert(1)</script> & more</p>" +:+ nl.
Proof.
  exact (f_equal html
    (ordinary_line_is_raw_paragraph (initial_state [])
       "<script>alert(1)</script> & more" eq_refl eq_refl eq_refl)).
Defined.

(** ** The decimal digits of a counter *)

Lemma pretty_N_char_digit d : isdigit (pretty_N_char d) = true.
Proof. unfold pretty_N_char. by repeat case_match. Qed.

Lemma pretty_N_go_digits x s :
  Str.all isdigit s = true → Str.all isdigit (pretty_N_go x s) = true.
Proof.
  revert s. induction (N.lt_wf_0 x) as [x _ IH]; intros s Hs.
  assert (x = 0 ∨ 0 < x)%N as [->|Hx] by lia; [by rewrite pretty_N_go_0|].
  rewrite pretty_N_go_step by done. apply IH.
  - by apply N.div_lt.
  - simpl. by rewrite pretty_N_char_digit.
Qed.

Lemma pretty_N_go_length x s :
  (String.length s ≤ String.length (pretty_N_go x s))%nat.
Proof.
  revert s. induction (N.lt_wf_0 x) as [x _ IH]; intros s.
  assert (x = 0 ∨ 0 < x)%N as [->|Hx] by lia; [by rewrite pretty_N_go_0|].
  rewrite pretty_N_go_step by done.
  etrans; [|apply IH; by apply N.div_lt]. simpl. lia.
Qed.

Lemma pretty_Z_digits n :
  0 ≤ n → Str.all isdigit (pretty n) = true ∧ Str.empty (pretty n) = false.
Proof.
  intros Hn. destruct n as [|p|p]; [done| |lia].
  unfold pretty, pretty_Z, pretty, pretty_positive, pretty, pretty_N.
  case_decide; [done|]. split; [by apply pretty_N_go_digits|].
  assert (0 < N.pos p)%N as Hp by lia.
  rewrite pretty_N_go_step by done.
  pose proof (pretty_N_go_length (N.pos p `div` 10)
                (String (pretty_N_char (N.pos p `mod` 10)) "")) as Hl.
  destruct (pretty_N_go _ _); [simpl in Hl; lia|done].
Qed.

Lemma digit_url c : isdigit c = true → url_char c = true.
Proof. revert c. by_chars. Qed.

Lemma digit_not_dash c : isdigit c = true → char_eqb c "-" = false.
Proof. revert c. by_chars. Qed.

(** ** The heading records of a document *)

Lemma suffixed_url b n :
  Str.all url_char b = true → 0 ≤ n →
  Str.all url_char (b +:+ "-" +:+ pretty n) = true.
Proof.
  intros Hb Hn. rewrite !all_app, Hb. simpl.
  destruct (pretty_Z_digits n Hn) as [Hd _].
  by rewrite (all_impl isdigit url_char _ digit_url Hd).
Qed.

Lemma scan_records_well_formed lines :
  let st := scan lines (initial_state []) in
  Forall well_formed_record (toc st) ∧
  ∀ b c, id_counts st !! b = Some c → 0 ≤ c.
Proof.
  apply (scan_invariant (λ st,
    Forall well_formed_record (toc st) ∧
    ∀ b c, id_counts st !! b = Some c → 0 ≤ c)).
  { split; [constructor|]. intros b c. simpl. by rewrite lookup_empty. }
  intros s l [Hwf Hpos].
  destruct (process_line_shape s l)
    as [(_ & Ht & Hc)|(n & x & Hn & _ & _ & Ht & Hc)].
  { by rewrite Ht, Hc. }
  rewrite Ht, Hc, generate_unique_id_eq.
  set (t := clean_header_text (heading_capture n l)).
  pose proof (sanitize_chars_url t) as Hurl.
  rewrite <- sanitize_id_chars in Hurl.
  assert (Hmark : Str.find_in "**" t = None).
  { subst t. rewrite clean_header_text_strip. apply strip_bold_no_marker. }
  destruct (id_counts s !! sanitize_id t) as [k|] eqn:Hk; simpl.
  - pose proof (Hpos _ _ Hk) as Hk0. split.
    + apply Forall_app. split; [done|]. apply Forall_singleton.
      unfold well_formed_record. simpl. split_and!; try lia; try done.
      * apply suffixed_url; [done|lia].
      * right. exists (k + 1). split; [lia|done].
    + intros b c. rewrite lookup_insert. case_decide.
      * intros [= <-]. lia.
      * apply Hpos.
  - split.
    + apply Forall_app. split; [done|]. apply Forall_singleton.
      unfold well_formed_record. simpl. split_and!; try lia; try done.
      by left.
    + intros b c. rewrite lookup_insert. case_decide.
      * by intros [= <-].
      * apply Hpos.
Qed.

(** X14.  Every heading record of every document is well formed: its
    level is between 1 and 6, its text holds no [**], its identifier is
    made of lower-case letters, digits, hyphens and underscores only,
    and is the sanitized text of the record, alone or followed by a
    hyphen and a counter of at least 1. *)
Theorem heading_records_well_formed (md : string) :
  Forall well_formed_record (markdown_to_html md []).2.
Proof.
  unfold markdown_to_html. simpl.
  apply (scan_records_well_formed (getlines "010" md)).
Qed.

(** ** When the identifiers of a document are distinct *)

Lemma numeric_suffix_app b s :
  numeric_suffix s = true → numeric_suffix (b +:+ s) = true.
Proof.
  intros Hs. induction b as [|c b IH]; [done|].
  rewrite sapp_cons. simpl. by rewrite IH, orb_true_r.
Qed.

Lemma numeric_suffix_counter b n :
  0 ≤ n → numeric_suffix (b +:+ "-" +:+ pretty n) = true.
Proof.
  intros Hn. apply numeric_suffix_app.
  destruct (pretty_Z_digits n Hn) as [Hd He].
  change ("-" +:+ pretty n) with (String "-" (pretty n)). simpl.
  by rewrite He, Hd.
Qed.

Lemma digits_no_dash d x y :
  Str.all isdigit d = true → d ≠ x +:+ "-" +:+ y.
Proof.
  intros Hd ->. rewrite !all_app in Hd.
  apply andb_true_iff in Hd as [_ Hd]. apply andb_true_iff in Hd as [Hd _].
  done.
Qed.

Lemma dash_split a b d1 d2 :
  Str.all isdigit d1 = true → Str.all isdigit d2 = true →
  a +:+ "-" +:+ d1 = b +:+ "-" +:+ d2 → a = b ∧ d1 = d2.
Proof.
  intros H1 H2. revert b.
  induction a as [|c a IH]; intros [|c' b].
  - change (String "-" d1 = String "-" d2 → "" = "" ∧ d1 = d2).
    by intros [= ->].
  - change (String "-" d1 = String c' (b +:+ "-" +:+ d2) →
            "" = String c' b ∧ d1 = d2).
    intros [= <- Hd]. by apply digits_no_dash in Hd.
  - change (String c (a +:+ "-" +:+ d1) = String "-" d2 →
            String c a = "" ∧ d1 = d2).
    intros [= -> Hd]. symmetry in Hd. by apply digits_no_dash in Hd.
  - rewrite !sapp_cons. intros [= -> Hab].
    destruct (IH _ Hab) as [-> ->]. done.
Qed.

Lemma suffixed_injective b1 n1 b2 n2 :
  0 ≤ n1 → 0 ≤ n2 →
  b1 +:+ "-" +:+ pretty n1 = b2 +:+ "-" +:+ pretty n2 → b1 = b2 ∧ n1 = n2.
Proof.
  intros H1 H2 H.
  destruct (pretty_Z_digits n1 H1) as [Hd1 _].
  destruct (pretty_Z_digits n2 H2) as [Hd2 _].
  destruct (dash_split _ _ _ _ Hd1 Hd2 H) as [-> Hp].
  split; [done|]. by apply pretty_Z_inj in Hp.
Qed.

Lemma assign_ids_cons t texts counts :
  assign_ids (t :: texts) counts =
  ((generate_unique_id t counts).1 ::
   (assign_ids texts (generate_unique_id t counts).2).1,
   (assign_ids texts (generate_unique_id t counts).2).2).
Proof.
  simpl. destruct (generate_unique_id t counts) as [i c]. simpl.
  by destruct (assign_ids texts c).
Qed.

Lemma generate_unique_id_fresh t used counts :
  numeric_suffix (sanitize_id t) = false →
  ids_registered used counts →
  ((generate_unique_id t counts).1 ∉ used) ∧
  ids_registered ((generate_unique_id t counts).1 :: used)
    (generate_unique_id t counts).2.
Proof.
  intros Ht [Hpos Hused]. rewrite generate_unique_id_eq.
  set (b := sanitize_id t) in *.
  destruct (counts !! b) as [k|] eqn:Hk; simpl.
  - pose proof (Hpos _ _ Hk) as Hk0. split.
    + intros Hin. destruct (Hused _ Hin) as [[Hn _]|(b' & c & n & Hu & Hc & Hle)].
      * by rewrite numeric_suffix_counter in Hn by lia.
      * apply suffixed_injective in Hu as [<- <-]; [|lia..].
        rewrite Hk in Hc. simplify_eq. lia.
    + split.
      * intros b' c. rewrite lookup_insert. case_decide.
        -- intros [= <-]. lia.
        -- apply Hpos.
      * intros u [->|Hin]%elem_of_cons.
        -- right. exists b, (k + 1), (k + 1).
           rewrite lookup_insert_eq. split_and!; [done|done|lia|lia].
        -- destruct (Hused _ Hin) as [[Hn [c Hc]]|(b' & c & n & Hu & Hc & Hle)].
           ++ left. split; [done|]. rewrite lookup_insert. case_decide; eauto.
           ++ right. destruct (decide (b = b')) as [<-|Hne].
              ** exists b, (k + 1), n. rewrite lookup_insert_eq.
                 rewrite Hk in Hc. simplify_eq. split_and!; [done|done|lia|lia].
              ** exists b', c, n. by rewrite lookup_insert_ne.
  - split.
    + intros Hin. destruct (Hused _ Hin) as [[_ [c Hc]]|(b' & c & n & Hu & Hc & Hle)].
      * by rewrite Hk in Hc.
      * rewrite Hu, numeric_suffix_counter in Ht by lia. done.
    + split.
      * intros b' c. rewrite lookup_insert. case_decide.
        -- by intros [= <-].
        -- apply Hpos.
      * intros u [->|Hin]%elem_of_cons.
        -- left. split; [done|]. rewrite lookup_insert_eq. eauto.
        -- destruct (Hused _ Hin) as [[Hn [c Hc]]|(b' & c & n & Hu & Hc & Hle)].
           ++ left. split; [done|]. rewrite lookup_insert. case_decide; eauto.
           ++ right. exists b', c, n. rewrite lookup_insert_ne; [done|].
              intros <-. by rewrite Hk in Hc.
Qed.

Lemma assign_ids_fresh texts used counts :
  Forall (λ t, numeric_suffix (sanitize_id t) = false) texts →
  ids_registered used counts →
  NoDup (assign_ids texts counts).1 ∧
  ∀ i, i ∈ (assign_ids texts counts).1 → i ∉ used.
Proof.
  intros Hall. revert used counts.
  induction Hall as [|t texts Ht _ IH]; intros used counts Hreg.
  { split; [constructor|]. by intros i ?%elem_of_nil. }
  rewrite assign_ids_cons. simpl.
  destruct (generate_unique_id_fresh t used counts Ht Hreg) as [Hfresh Hreg'].
  destruct (IH _ _ Hreg') as [Hnd Hout].
  split.
  - apply NoDup_cons. split; [|done].
    intros Hin. apply (Hout _ Hin). by left.
  - intros i [->|Hin]%elem_of_cons; [done|].
    intros Hu. apply (Hout _ Hin). by right.
Qed.

(** X15.  The identifiers of a document are pairwise distinct whenever
    no heading has a sanitized text that ends with a hyphen followed by
    digits (the form the assigner gives to a repeated heading); repeated
    headings are then told apart by their counters. *)
Theorem heading_ids_unique (md : string) :
  let entries := (markdown_to_html md []).2 in
  Forall (λ e, numeric_suffix (sanitize_id (text e)) = false) entries →
  NoDup (id <$> entries).
Proof.
  intros entries Hall.
  assert (id <$> entries = (assign_ids (text <$> entries) ∅).1) as ->.
  { subst entries. unfold markdown_to_html. simpl.
    by rewrite (scan_ids_assigned (getlines "010" md)). }
  apply (assign_ids_fresh _ []).
  - by apply Forall_fmap.
  - split; [intros b c; by rewrite lookup_empty|by intros u ?%elem_of_nil].
Qed.

Lemma heading_ids_unique_witness :
  NoDup
    (id <$> (markdown_to_html
               ("# A" +:+ nl +:+ "## A" +:+ nl +:+ "# B-x" +:+ nl +:+ "# A" +:+ nl)
               []).2).
Proof.
  apply (heading_ids_unique
           ("# A" +:+ nl +:+ "## A" +:+ nl +:+ "# B-x" +:+ nl +:+ "# A" +:+ nl)).
  vm_compute. repeat constructor.
Defined.

(** ** The nesting of the table of contents *)

Lemma toc_items_app a b : toc_items (a ++ b) = toc_items a ++ toc_items b.
Proof.
  induction a as [|[| |e] a IH]; simpl; auto. by rewrite IH.
Qed.

Lemma toc_items_replicate n t :
  (∀ e, t ≠ TocItem e) → toc_items (replicate n t) = [].
Proof.
  intros Ht. induction n as [|n IH]; [done|]. simpl.
  destruct t; try done. by destruct (Ht entry).
Qed.

Lemma toc_items_tokens depth entries :
  toc_items (toc_tokens depth entries) = entries.
Proof.
  revert depth. induction entries as [|e entries IH]; intros depth; simpl.
  - by apply toc_items_replicate.
  - rewrite !toc_items_app, !toc_items_replicate by done. simpl.
    by rewrite IH.
Qed.

Lemma stays_above_opens lo n depth ts :
  lo ≤ depth → stays_above lo (depth + Z.of_nat n) ts →
  stays_above lo depth (replicate n TocOpen ++ ts).
Proof.
  revert depth. induction n as [|n IH]; intros depth Hd H; simpl.
  - by rewrite Z.add_0_r in H.
  - split; [done|]. apply IH; [lia|].
    by replace (depth + 1 + Z.of_nat n) with (depth + Z.of_nat (S n)) by lia.
Qed.

Lemma stays_above_closes lo n depth ts :
  stays_above lo (depth - Z.of_nat n) ts →
  stays_above lo depth (replicate n TocClose ++ ts).
Proof.
  revert depth. induction n as [|n IH]; intros depth H; simpl.
  - by rewrite Z.sub_0_r in H.
  - assert (stays_above lo (depth - 1) (replicate n TocClose ++ ts)) as H'.
    { apply IH.
      by replace (depth - 1 - Z.of_nat n) with (depth - Z.of_nat (S n)) by lia. }
    split; [|done]. destruct (replicate n TocClose ++ ts) as [|[]];
      simpl in H'; lia.
Qed.

Lemma stays_above_tokens depth entries :
  1 ≤ depth → Forall (λ e, 1 ≤ level e) entries →
  stays_above 1 depth (toc_tokens depth entries).
Proof.
  intros Hd Hall. revert depth Hd.
  induction Hall as [|e entries He _ IH]; intros depth Hd; simpl toc_tokens.
  - rewrite <- (app_nil_r (replicate _ _)). apply stays_above_closes.
    simpl. lia.
  - apply stays_above_opens; [done|]. apply stays_above_closes.
    replace (depth + Z.of_nat (Z.to_nat (level e - depth)) -
             Z.of_nat (Z.to_nat (depth - level e))) with (level e) by lia.
    simpl. split; [done|]. by apply IH.
Qed.

Lemma count_token_app p a b :
  count_token p (a ++ b) = count_token p a + count_token p b.
Proof. unfold count_token. rewrite filter_app, length_app. lia. Qed.

Lemma count_token_cons p t ts :
  count_token p (t :: ts) = (if p t then 1 else 0) + count_token p ts.
Proof.
  unfold count_token. destruct (p t) eqn:E.
  - rewrite filter_cons_True by done. simpl length. lia.
  - rewrite filter_cons_False by (by rewrite E). lia.
Qed.

Lemma depth_after_count depth ts :
  depth_after depth ts = depth + count_token is_open ts - count_token is_close ts.
Proof.
  revert depth.
  induction ts as [|t ts IH]; intros depth.
  - unfold count_token. simpl. lia.
  - rewrite !count_token_cons. destruct t; simpl; rewrite IH; lia.
Qed.

(** X16.  The table of contents of every document with a heading is well
    nested: it is the header, the moves and the footer; the items are
    the heading records, each once and in document order; the depth
    never falls below 1, so that a closing tag never closes the outer
    list before the footer; and there are as many openings as closings,
    the depth ending at 1. *)
Theorem document_toc_well_nested (md : string) :
  let entries := (markdown_to_html md []).2 in
  let moves := toc_tokens 1 entries in
  entries ≠ [] →
  generate_toc_html entries =
    toc_header +:+ render_tokens moves +:+ toc_footer ∧
  toc_items moves = entries ∧
  stays_above 1 1 moves ∧
  count_token is_open moves = count_token is_close moves.
Proof.
  intros entries moves Hne.
  assert (Hlev : Forall (λ e, 1 ≤ level e) entries).
  { destruct (scan_headings_embedded (getlines "010" md)) as [_ H].
    eapply Forall_impl; [exact H|]. simpl. intros e He. lia. }
  split_and!.
  - by apply generate_toc_html_tokens.
  - apply toc_items_tokens.
  - by apply stays_above_tokens.
  - pose proof (depth_after_toc_tokens 1 entries ltac:(lia) Hlev) as Hd.
    rewrite depth_after_count in Hd. subst moves. lia.
Qed.

Lemma document_toc_well_nested_witness :
  let md := "### Deep" +:+ nl +:+ "# Top" +:+ nl +:+ "#### Deeper" +:+ nl in
  let moves := toc_tokens 1 (markdown_to_html md []).2 in
  stays_above 1 1 moves ∧
  count_token is_open moves = count_token is_close moves.
Proof.
  intros md moves.
  destruct (document_toc_well_nested md) as (_ & _ & H1 & H2).
  - vm_compute. discriminate.
  - split; [exact H1|exact H2].
Defined.

(** ** Carriage returns *)

Lemma matches_Cat_inv r1 r2 s :
  matches (Cat r1 r2) s = true →
  ∃ s1 s2, s = s1 +:+ s2 ∧ matches r1 s1 = true ∧ matches r2 s2 = true.
Proof.
  revert r1. induction s as [|c s IH]; intros r1.
  - simpl. intros [H1 H2]%andb_true_iff. by exists "", "".
  - simpl. rewrite matches_Alt. intros [H|H]%orb_true_iff.
    + destruct (IH _ H) as (s1 & s2 & -> & H1 & H2).
      by exists (String c s1), s2.
    + destruct (nullable r1) eqn:Hn.
      * by exists "", (String c s).
      * by rewrite matches_void in H.
Qed.

Lemma back_cons x s :
  Str.back (String x s) =
  match Str.back s with Some c => Some c | None => Some x end.
Proof.
  destruct s as [|y s]; [done|].
  change (Str.back (String x (String y s))) with (Str.back (String y s)).
  destruct (Str.back (String y s)) eqn:E; [done|].
  exfalso. revert y E. induction s as [|z s IH]; intros y; [done|].
  change (Str.back (String y (String z s))) with (Str.back (String z s)).
  apply IH.
Qed.

Lemma back_app a b :
  Str.back (a +:+ b) =
  match Str.back b with Some c => Some c | None => Str.back a end.
Proof.
  induction a as [|x a IH].
  - rewrite sapp_nil_l. by destruct (Str.back b).
  - rewrite sapp_cons, !back_cons, IH. by destruct (Str.back b).
Qed.

Lemma back_all p s c : Str.all p s = true → Str.back s = Some c → p c = true.
Proof.
  induction s as [|x s IH]; [done|]. simpl.
  intros [Hx Hs]%andb_true_iff. destruct s; [by intros [= <-]|]. auto.
Qed.

Lemma heading_chars n : chars_in (char_eqb "#") (Times n (Lit "#")).
Proof. induction n as [|n IH]; simpl; auto. Qed.

(** A line that ends with a carriage return matches a heading pattern
    only when it holds nothing but hashes and white space. *)
Lemma heading_with_cr n line :
  Str.back line = Some "013"%char →
  regex_match line (h_regex n) = true → hashes_and_space line = true.
Proof.
  intros Hback Hm. unfold regex_match, h_regex in Hm.
  apply matches_Cat_inv in Hm as (s1 & s' & -> & H1 & Hm).
  apply matches_Cat_inv in Hm as (s2 & s3 & -> & H2 & H3).
  apply (matches_chars_in (char_eqb "#")) in H1; [|apply heading_chars].
  apply (matches_chars_in isspace) in H2; [|by simpl].
  apply (matches_chars_in (λ c, negb (is_line_terminator c))) in H3; [|by simpl].
  rewrite !back_app in Hback.
  destruct (Str.back s3) as [c|] eqn:Hb3.
  { simplify_eq. by apply (back_all _ _ _ H3) in Hb3. }
  assert (s3 = "") as ->.
  { destruct s3 as [|x s3]; [done|]. rewrite back_cons in Hb3.
    by destruct (Str.back s3). }
  unfold hashes_and_space. rewrite !all_app. simpl.
  rewrite (all_impl (char_eqb "#") (λ c, char_eqb "#" c || isspace c) s1),
    (all_impl isspace (λ c, char_eqb "#" c || isspace c) s2); try done.
  - intros c Hc. by rewrite Hc, orb_true_r.
  - intros c Hc. by rewrite Hc.
Qed.

Lemma no_heading_step st line :
  (∀ n, (1 ≤ n)%nat → regex_match line (h_regex n) = false) →
  toc (process_line st line) = toc st ∧
  id_counts (process_line st line) = id_counts st.
Proof.
  intros Hno.
  destruct (process_line_shape st line)
    as [(_ & Ht & Hc)|(n & x & Hn & Hm & _)]; [done|].
  rewrite Hno in Hm; [done|lia].
Qed.

(** X17.  Headings of a document with Windows line endings are lost: a
    line that ends with a carriage return and holds more than hashes
    and white space is no heading line, so that when every line of a
    document is such a line, or holds no hash at all, the document has
    no heading record whatever it looks like. *)
Theorem carriage_return_hides_headings (lines : list string)
    (st : scan_state) :
  Forall (λ l, Str.contains "#" l = false ∨
               (Str.back l = Some "013"%char ∧ hashes_and_space l = false))
    lines →
  toc (scan lines st) = toc st ∧ id_counts (scan lines st) = id_counts st.
Proof.
  intros Hall. revert st.
  induction Hall as [|l lines Hl _ IH]; intros st; [done|].
  rewrite scan_cons.
  destruct (IH (process_line st l)) as [-> ->].
  apply no_heading_step. intros n Hn.
  destruct (regex_match l (h_regex n)) eqn:Hm; [|done].
  destruct Hl as [Hl|[Hb Hs]].
  - destruct (heading_line_hash n l Hn Hm) as [rest ->].
    simpl in Hl. rewrite ?char_eqb_refl in Hl. done.
  - by rewrite (heading_with_cr n l Hb Hm) in Hs.
Qed.

Lemma carriage_return_hides_headings_witness :
  let cr := String "013" "" in
  toc (scan ["# Title" +:+ cr; cr; "text" +:+ cr; "## Part" +:+ cr]
         (initial_state [])) = [].
Proof.
  intros cr.
  destruct (carriage_return_hides_headings
              ["# Title" +:+ cr; cr; "text" +:+ cr; "## Part" +:+ cr]
              (initial_state [])) as [H _]; [|exact H].
  constructor; [right; split; reflexivity|].
  constructor; [left; reflexivity|].
  constructor; [left; reflexivity|].
  constructor; [right; split; reflexivity|]. constructor.
Defined.

(** ** A table row and its cells *)

Lemma pop_back_snoc s c : Str.pop_back (s +:+ String c "") = s.
Proof.
  induction s as [|x s IH]; [done|].
  rewrite sapp_cons. simpl. rewrite IH.
  destruct (s +:+ String c "") eqn:E; [|done].
  by destruct s.
Qed.

Lemma drop_while_all p s : Str.all p s = true → Str.drop_while p s = "".
Proof.
  induction s as [|c s IH]; [done|]. simpl.
  intros [Hc Hs]%andb_true_iff. rewrite Hc. auto.
Qed.

Lemma rtrim_all s : Str.all is_blank s = true → rtrim s = "".
Proof.
  induction s as [|c s IH]; [done|]. simpl.
  intros [Hc Hs]%andb_true_iff. by rewrite IH, Hc.
Qed.

Lemma rtrim_app_blank s r : Str.all is_blank r = true → rtrim (s +:+ r) = rtrim s.
Proof.
  intros Hr. induction s as [|c s IH].
  - rewrite sapp_nil_l. by apply rtrim_all.
  - rewrite sapp_cons. simpl. by rewrite IH.
Qed.

Lemma trim_padded l c r :
  Str.all is_blank l = true → Str.all is_blank r = true →
  starts_blank c = false → ends_blank c = false →
  trim (l +:+ c +:+ r) = c.
Proof.
  intros Hl Hr Hs He. unfold trim. rewrite drop_while_app by done.
  destruct c as [|x c].
  - rewrite sapp_nil_l, drop_while_all by done. done.
  - rewrite sapp_cons. simpl in Hs. simpl Str.drop_while. rewrite Hs.
    rewrite <- sapp_cons, rtrim_app_blank by done. by apply rtrim_fixed.
Qed.

Lemma format_cell_padded c :
  plain_cell c → format_cell (" " +:+ c +:+ " ") = c.
Proof.
  intros (_ & Hplain & Hs & He). unfold format_cell.
  rewrite (trim_padded " " c " ") by done.
  rewrite (regex_replace_plain bold_regex c bold_inert Hplain).
  rewrite (regex_replace_plain italic_regex c italic_inert Hplain).
  rewrite (regex_replace_plain inline_code_regex c inline_code_inert Hplain).
  apply (regex_replace_plain link_regex c link_inert Hplain).
Qed.

Lemma unlines_snoc delim segs l :
  unlines delim (segs ++ [l]) = (unlines delim segs +:+ l) +:+ String delim "".
Proof.
  induction segs as [|x segs IH].
  - simpl. by rewrite unlines_cons, sapp_nil_l.
  - rewrite <- app_comm_cons, !unlines_cons, IH.
    by rewrite !sapp_assoc, ?sapp_cons, ?sapp_assoc.
Qed.

(** X18.  A row written [| c1 | c2 | ... |] gives back its cells: for a
    non-empty list of cells without pipe, without a character that
    opens an inline pattern and without a blank at either end, the
    cells buffered for the row are these cells, the blanks of the
    padding and the two outer pipes being dropped. *)
Theorem row_cells_round_trip (cells : list string) :
  cells ≠ [] → Forall plain_cell cells → row_cells (row_text cells) = cells.
Proof.
  intros Hne Hall.
  set (segs := (λ c, " " +:+ c +:+ " ") <$> cells).
  assert (Hsegs : Forall (λ l, Str.contains "|" l = false) segs).
  { apply Forall_fmap. eapply Forall_impl; [exact Hall|].
    intros c (Hc & _). simpl. rewrite !contains_app, Hc. done. }
  destruct (exists_last Hne) as (cs & c & Hcells).
  assert (Hlast : segs = ((λ c, " " +:+ c +:+ " ") <$> cs) ++
                         [" " +:+ c +:+ " "]).
  { subst segs. by rewrite Hcells, fmap_app. }
  set (body := unlines "|" ((λ c, " " +:+ c +:+ " ") <$> cs) +:+
               " " +:+ c +:+ " ").
  assert (Hbody : unlines "|" segs = body +:+ "|").
  { rewrite Hlast, unlines_snoc. done. }
  assert (Hback : Str.back body = Some " "%char).
  { subst body. by rewrite !back_app. }
  assert (Hline : process_table_line (row_text cells) = body).
  { unfold row_text. fold segs. rewrite Hbody.
    unfold process_table_line.
    change ("|" +:+ body +:+ "|") with (String "|" (body +:+ "|")).
    cbv iota beta. rewrite back_app. simpl Str.back. cbv iota.
    apply pop_back_snoc. }
  unfold row_cells. rewrite Hline, getlines_lines.
  assert (Hlines : lines_of "|" body = segs).
  { pose proof (lines_of_app_delim "|" body) as H.
    unfold terminated in H. rewrite Hback in H.
    change (char_eqb " " "|") with false in H. cbv iota in H.
    rewrite <- H. change (String "|" "") with "|".
    rewrite <- Hbody. by apply lines_of_unlines. }
  rewrite Hlines. subst segs. rewrite <- list_fmap_compose.
  rewrite <- (list_fmap_id cells) at 2.
  apply Forall_fmap_ext_1. eapply Forall_impl; [exact Hall|].
  intros x Hx. simpl. by apply format_cell_padded.
Qed.

Lemma row_cells_round_trip_witness :
  row_cells "| Name | Size in KB |  |" = ["Name"; "Size in KB"; ""].
Proof.
  apply (row_cells_round_trip ["Name"; "Size in KB"; ""]); [discriminate|].
  repeat constructor.
Defined.

(** ** Inline patterns *)

Lemma regex_replace_skip p k s :
  (k ≤ String.length s)%nat →
  regex_replace_from p k s = regex_replace_from p 0 (Str.drop k s).
Proof.
  revert k. induction s as [|c s IH]; intros k Hk.
  - by destruct k.
  - destruct k as [|k]; [done|]. simpl in Hk. simpl. apply IH. lia.
Qed.

Lemma regex_replace_hit (p : pattern) whole post out :
  Str.empty whole = false →
  p (whole +:+ post) = Some (out, post) →
  regex_replace (whole +:+ post) p = out +:+ regex_replace post p.
Proof.
  destruct whole as [|c m]; [done|]. intros _ Hp.
  unfold regex_replace. rewrite sapp_cons in *.
  simpl. rewrite Hp. f_equal.
  rewrite slength_app.
  replace (S (String.length m + String.length post) - String.length post - 1)%nat
    with (String.length m + 0)%nat by lia.
  rewrite regex_replace_skip by (rewrite slength_app; lia).
  by rewrite drop_app_length.
Qed.

Lemma regex_replace_prefix (p : pattern) (q : ascii → bool) pre rest :
  (∀ c s, q c = true → p (String c s) = None) →
  Str.all q pre = true →
  regex_replace (pre +:+ rest) p = pre +:+ regex_replace rest p.
Proof.
  intros Hq. unfold regex_replace.
  induction pre as [|c pre IH]; [done|].
  simpl. intros [Hc Hpre]%andb_true_iff.
  rewrite !sapp_cons. simpl. by rewrite (Hq c _ Hc), IH.
Qed.

Lemma starts_with_app p s : Str.starts_with p (p +:+ s) = true.
Proof.
  induction p as [|c p IH]; [by destruct s|].
  rewrite sapp_cons. simpl. by rewrite char_eqb_refl, IH.
Qed.

Lemma drop_length_app p s : Str.drop (String.length p) (p +:+ s) = s.
Proof.
  pose proof (drop_app_length p s 0) as H. rewrite Nat.add_0_r in H.
  rewrite H. by destruct s.
Qed.

Lemma span_until stop x cls rest :
  Str.all (λ c, negb (char_eqb c stop)) x = true →
  Str.span (λ c, negb (char_eqb c stop)) (x +:+ String stop cls +:+ rest) =
  (x, String stop cls +:+ rest).
Proof.
  intros Hx. induction x as [|c x IH].
  - rewrite sapp_nil_l, sapp_cons. simpl. by rewrite char_eqb_refl.
  - simpl in Hx. apply andb_true_iff in Hx as [Hc Hx].
    rewrite sapp_cons. simpl. by rewrite Hc, IH.
Qed.

Lemma bracketed_hit opn stop cls x post :
  Str.empty x = false →
  Str.all (λ c, negb (char_eqb c stop)) x = true →
  bracketed opn stop (String stop cls)
    (opn +:+ x +:+ String stop cls +:+ post) = Some (x, post).
Proof.
  intros Hne Hx. unfold bracketed.
  rewrite starts_with_app, drop_length_app, span_until by done.
  by rewrite Hne, starts_with_app, drop_length_app.
Qed.

Lemma bold_miss c s :
  negb (char_eqb "*" c) = true → bold_regex (String c s) = None.
Proof.
  intros H%negb_true_iff. unfold bold_regex. by rewrite bracketed_opener.
Qed.

Lemma italic_miss c s :
  negb (char_eqb "*" c) = true → italic_regex (String c s) = None.
Proof.
  intros H%negb_true_iff. unfold italic_regex. by rewrite bracketed_opener.
Qed.

Lemma inline_code_miss c s :
  negb (char_eqb "`" c) = true → inline_code_regex (String c s) = None.
Proof.
  intros H%negb_true_iff. unfold inline_code_regex. by rewrite bracketed_opener.
Qed.

Lemma link_miss c s :
  negb (char_eqb "[" c) = true → link_regex (String c s) = None.
Proof.
  intros H%negb_true_iff. unfold link_regex. by rewrite bracketed_opener.
Qed.

Lemma regex_replace_occurrence (p : pattern) (q : ascii → bool)
    pre whole out post :
  (∀ c s, q c = true → p (String c s) = None) →
  Str.all q pre = true →
  Str.empty whole = false →
  p (whole +:+ post) = Some (out, post) →
  regex_replace (pre +:+ whole +:+ post) p =
  pre +:+ out +:+ regex_replace post p.
Proof.
  intros Hq Hpre Hne Hp.
  by rewrite (regex_replace_prefix p q), (regex_replace_hit p whole post out).
Qed.

(** X19.  Each inline pattern replaces its leftmost occurrence and goes
    on after it: text that holds no opening character is copied, the
    delimited text moves between the tags unchanged, and what follows
    the closing delimiter is processed in the same way.  The link
    pattern puts the target, as it is, in the [href] attribute. *)
Theorem inline_patterns_replace (pre x y post : string) :
  Str.empty x = false →
  (Str.all (λ c, negb (char_eqb "*" c)) pre = true →
   Str.all (λ c, negb (char_eqb c "*")) x = true →
   regex_replace (pre +:+ "**" +:+ x +:+ "**" +:+ post) bold_regex =
     pre +:+ "<strong>" +:+ x +:+ "</strong>" +:+ regex_replace post bold_regex ∧
   regex_replace (pre +:+ "*" +:+ x +:+ "*" +:+ post) italic_regex =
     pre +:+ "<em>" +:+ x +:+ "</em>" +:+ regex_replace post italic_regex) ∧
  (Str.all (λ c, negb (char_eqb "`" c)) pre = true →
   Str.all (λ c, negb (char_eqb c "`")) x = true →
   regex_replace (pre +:+ "`" +:+ x +:+ "`" +:+ post) inline_code_regex =
     pre +:+ "<code>" +:+ x +:+ "</code>" +:+
     regex_replace post inline_code_regex) ∧
  (Str.all (λ c, negb (char_eqb "[" c)) pre = true →
   Str.all (λ c, negb (char_eqb c "]")) x = true →
   Str.empty y = false →
   Str.all (λ c, negb (char_eqb c ")")) y = true →
   regex_replace (pre +:+ "[" +:+ x +:+ "](" +:+ y +:+ ")" +:+ post) link_regex =
     pre +:+ "<a href=" +:+ dq +:+ y +:+ dq +:+ ">" +:+ x +:+ "</a>" +:+
     regex_replace post link_regex).
Proof.
  intros Hx. split_and!.
  - intros Hpre Hstar. split.
    + replace (pre +:+ "**" +:+ x +:+ "**" +:+ post)
        with (pre +:+ ("**" +:+ x +:+ "**") +:+ post)
        by (by rewrite !sapp_assoc).
      rewrite (regex_replace_occurrence bold_regex _ pre ("**" +:+ x +:+ "**")
                 ("<strong>" +:+ x +:+ "</strong>") post bold_miss Hpre eq_refl).
      * by rewrite !sapp_assoc.
      * unfold bold_regex. rewrite !sapp_assoc.
        by rewrite (bracketed_hit "**" "*" "*" x post).
    + replace (pre +:+ "*" +:+ x +:+ "*" +:+ post)
        with (pre +:+ ("*" +:+ x +:+ "*") +:+ post)
        by (by rewrite !sapp_assoc).
      rewrite (regex_replace_occurrence italic_regex _ pre ("*" +:+ x +:+ "*")
                 ("<em>" +:+ x +:+ "</em>") post italic_miss Hpre eq_refl).
      * by rewrite !sapp_assoc.
      * unfold italic_regex. rewrite !sapp_assoc.
        by rewrite (bracketed_hit "*" "*" "" x post).
  - intros Hpre Htick.
    replace (pre +:+ "`" +:+ x +:+ "`" +:+ post)
      with (pre +:+ ("`" +:+ x +:+ "`") +:+ post)
      by (by rewrite !sapp_assoc).
    rewrite (regex_replace_occurrence inline_code_regex _ pre ("`" +:+ x +:+ "`")
               ("<code>" +:+ x +:+ "</code>") post inline_code_miss Hpre eq_refl).
    + by rewrite !sapp_assoc.
    + unfold inline_code_regex. rewrite !sapp_assoc.
      by rewrite (bracketed_hit "`" "`" "" x post).
  - intros Hpre Hbr Hy Hpar.
    replace (pre +:+ "[" +:+ x +:+ "](" +:+ y +:+ ")" +:+ post)
      with (pre +:+ ("[" +:+ x +:+ "](" +:+ y +:+ ")") +:+ post)
      by (by rewrite !sapp_assoc).
    rewrite (regex_replace_occurrence link_regex _ pre
               ("[" +:+ x +:+ "](" +:+ y +:+ ")")
               ("<a href=" +:+ dq +:+ y +:+ dq +:+ ">" +:+ x +:+ "</a>")
               post link_miss Hpre eq_refl).
    + by rewrite !sapp_assoc.
    + unfold link_regex. rewrite !sapp_assoc.
      change ("](" +:+ y +:+ ")" +:+ post)
        with ("]" +:+ "(" +:+ y +:+ ")" +:+ post).
      rewrite (bracketed_hit "[" "]" "" x ("(" +:+ y +:+ ")" +:+ post)) by done.
      simpl. by rewrite (bracketed_hit "(" ")" "" y post).
Qed.

Lemma inline_patterns_replace_witness :
  regex_replace "see [the docs](http://x/y?a=1&b=2) now" link_regex =
  "see <a href=" +:+ dq +:+ "http://x/y?a=1&b=2" +:+ dq +:+ ">the docs</a> now".
Proof.
  destruct (inline_patterns_replace "see " "the docs" "http://x/y?a=1&b=2"
              " now" eq_refl) as (_ & _ & H).
  exact (H eq_refl eq_refl eq_refl eq_refl).
Defined.

(** ** Horizontal rules *)

Lemma matches_Class_cons p c r s :
  p c = true → matches r s = true →
  matches (Cat (Class p) r) (String c s) = true.
Proof.
  intros Hc Hs. change (String c s) with (String c "" +:+ s).
  apply matches_Cat_app; [|done]. simpl. by rewrite Hc.
Qed.

(** X20.  Three or more characters among hyphen, star and underscore,
    in any mix, with white space before or after and nothing else, make
    a horizontal-rule line, and such a line produces the rule element
    in every state: also inside a code block, and also while a table is
    pending, which is then not flushed, so that the rule comes out
    before the table.  A line with any other character is no rule. *)
Theorem rule_line_everywhere (st : scan_state) (pad1 pad2 r other : string)
    (a b c : ascii) :
  Str.all isspace pad1 = true → Str.all isspace pad2 = true →
  rule_char a = true → rule_char b = true → rule_char c = true →
  Str.all rule_char r = true →
  let line := pad1 +:+ String a (String b (String c r)) +:+ pad2 in
  process_line st line = emit st ("<hr>" +:+ nl) ∧
  process_line st line =
    mkState (html st +:+ "<hr>" +:+ nl) (toc st) (in_code_block st)
      (in_table st) (code_lang st) (table_rows st) (id_counts st) ∧
  (Str.all rule_line_char other = false →
   regex_match other horizontal_rule_regex = false).
Proof.
  intros H1 H2 Ha Hb Hc Hr line.
  assert (Hstep : process_line st line = emit st ("<hr>" +:+ nl)).
  { subst line. unfold process_line.
    assert (Str.empty (pad1 +:+ String a (String b (String c r)) +:+ pad2)
            = false) as ->.
    { destruct pad1; [by rewrite sapp_nil_l, sapp_cons|by rewrite sapp_cons]. }
    assert (regex_match (pad1 +:+ String a (String b (String c r)) +:+ pad2)
              horizontal_rule_regex = true) as ->; [|done].
    unfold regex_match, horizontal_rule_regex.
    apply matches_Cat_app; [by apply matches_Star_class|].
    replace (String a (String b (String c r)) +:+ pad2)
      with (String a (String b (String c "")) +:+ (r +:+ pad2))
      by (by rewrite !sapp_cons, sapp_nil_l).
    apply matches_Cat_app.
    + simpl Times. by do 3 (apply matches_Class_cons; [done|]).
    + apply matches_Cat_app; by apply matches_Star_class. }
  split_and!; [exact Hstep|by rewrite Hstep|].
  intros Hother.
  destruct (regex_match other horizontal_rule_regex) eqn:Hm; [|done].
  by rewrite (matches_chars_in _ _ _ rule_chars Hm) in Hother.
Qed.

Lemma rule_line_everywhere_witness :
  let st := scan ["a | b"; "-|-"; "c | d"] (initial_state []) in
  in_table st = true ∧
  html (process_line st " -*_- ") = "<hr>" +:+ nl ∧
  table_rows (process_line st " -*_- ") = [["a"; "b"]; ["c"; "d"]].
Proof.
  intros st. split; [reflexivity|].
  destruct (rule_line_everywhere st " " " " "-" "" "-" "*" "_"
              eq_refl eq_refl eq_refl eq_refl eq_refl eq_refl) as (_ & H & _).
  change (" " +:+ String "-" (String "*" (String "_" "-")) +:+ " ")
    with " -*_- " in H.
  rewrite H. split; reflexivity.
Defined.

(** ** A whole table *)

Lemma scan_rows lines st :
  in_code_block st = false → Forall row_line lines →
  scan lines st =
  mkState (html st) (toc st) false (in_table st) (code_lang st)
    (table_rows st ++ (row_cells <$> lines)) (id_counts st).
Proof.
  intros Hcode Hall. revert st Hcode.
  induction Hall as [|l lines Hl _ IH]; intros st Hcode.
  - simpl. rewrite app_nil_r. destruct st. simpl in *. by subst.
  - rewrite scan_cons, (row_line_step st l Hcode Hl), IH by done.
    simpl. by rewrite <- app_assoc.
Qed.

Lemma divider_step st line :
  regex_match line table_divider_regex = true →
  in_code_block st = false → in_table st = false → table_rows st ≠ [] →
  process_line st line =
  mkState (html st) (toc st) false true (code_lang st) (table_rows st)
    (id_counts st).
Proof.
  intros Hd Hcode Htable Hrows.
  destruct (divider_line_facts line Hd) as (Hne & Hr & Hf & _).
  unfold process_line. rewrite Hne, Hr, Hf, Hcode.
  unfold table_stage. rewrite Hd, Htable. simpl.
  rewrite bool_decide_eq_false_2 by done. simpl. by rewrite Hcode.
Qed.

(** X21.  A table at the end of a document: pipe lines, a divider line
    and more pipe lines (at least one pipe line before the divider)
    come out as one table element and nothing else.  Its rows are the
    cells of all the pipe lines, before and after the divider, in
    order: the first row that has cells is the header row, and the
    divider line leaves no trace; no heading is recorded. *)
Theorem table_at_end_of_document (before after : list string) (div : string)
    (toc0 : list TocEntry) :
  before ≠ [] → Forall row_line before →
  regex_match div table_divider_regex = true →
  Forall row_line after →
  let st := scan (before ++ div :: after) (initial_state toc0) in
  flush_table_at_end st = table_html (row_cells <$> (before ++ after)) ∧
  toc st = toc0.
Proof.
  intros Hne Hbefore Hdiv Hafter st. subst st.
  rewrite scan_app, scan_cons.
  rewrite (scan_rows before) by done. simpl app.
  rewrite divider_step; [|done..|by destruct before].
  rewrite (scan_rows after) by done. simpl.
  split; [|done]. unfold flush_table_at_end. simpl.
  rewrite bool_decide_eq_false_2 by by destruct before.
  by rewrite table_block_html, sapp_nil_l, fmap_app.
Qed.

Lemma table_at_end_of_document_witness :
  (markdown_to_html
     (unlines "010" [row_text ["Name"; "Size"]; "|---|---|";
                     row_text ["a"; "1"]]) []).1 =
  "<table>" +:+ nl +:+
  "<tr><th>Name</th><th>Size</th></tr>" +:+ nl +:+
  "<tr><td>a</td><td>1</td></tr>" +:+ nl +:+
  "</table>" +:+ nl.
Proof.
  rewrite markdown_to_html_lines by repeat constructor.
  destruct (table_at_end_of_document [row_text ["Name"; "Size"]]
              [row_text ["a"; "1"]] "|---|---|" [])
    as [H _]; [discriminate|repeat constructor|reflexivity|repeat constructor|].
  simpl fst. etrans; [exact H|]. reflexivity.
Defined.

(** ** A whole code block *)

Lemma scan_code_lines body st :
  in_code_block st = true → Forall code_line body →
  scan body st = emit st (unlines "010" body).
Proof.
  intros Hcode Hall. revert st Hcode.
  induction Hall as [|l body (He & Hr & Hf) _ IH]; intros st Hcode.
  - unfold emit, unlines. simpl. rewrite sapp_nil_r. by destruct st.
  - rewrite scan_cons.
    assert (process_line st l = emit st (l +:+ nl)) as ->.
    { unfold process_line. by rewrite He, Hr, Hf, Hcode. }
    rewrite IH by done. rewrite unlines_cons. unfold emit. simpl.
    by rewrite !sapp_assoc, ?sapp_cons, ?sapp_nil_l.
Qed.

(** X22.  A code block at the start of a document: after an opening
    fence with a label, lines that are not blank, not horizontal rules
    and not fences come out one per line exactly as they are written,
    after the opening tags.  The closing tags are written by a closing
    fence only: when the document ends inside the block the output
    ends with the last code line and the block is left open.  No
    heading is recorded either way. *)
Theorem code_block_rendered (lang : string) (body : list string)
    (toc0 : list TocEntry) :
  Str.all (λ c, negb (is_line_terminator c)) lang = true →
  Forall code_line body →
  let opening :=
    "<pre><code" +:+
    (if Str.empty lang then ""
     else " class=" +:+ dq +:+ "language-" +:+ lang +:+ dq) +:+ ">" +:+ nl in
  let unclosed := scan (("```" +:+ lang) :: body) (initial_state toc0) in
  let closed := scan (("```" +:+ lang) :: body ++ ["```"]) (initial_state toc0) in
  flush_table_at_end unclosed = opening +:+ unlines "010" body ∧
  in_code_block unclosed = true ∧
  flush_table_at_end closed =
    opening +:+ unlines "010" body +:+ "</code></pre>" +:+ nl ∧
  in_code_block closed = false ∧
  toc unclosed = toc0 ∧ toc closed = toc0.
Proof.
  intros Hlang Hbody opening unclosed closed.
  assert (Hopen : process_line (initial_state toc0) ("```" +:+ lang) =
                  mkState opening toc0 true false lang [] ∅).
  { unfold process_line.
    assert (regex_match ("```" +:+ lang) horizontal_rule_regex = false) as ->
      by exact (matches_void (deriv "`" horizontal_rule_regex)
                  ("``" +:+ lang) eq_refl).
    rewrite fence_line_matches by done. reflexivity. }
  assert (Hun : unclosed =
                mkState (opening +:+ unlines "010" body) toc0 true false lang
                  [] ∅).
  { subst unclosed. rewrite scan_cons, Hopen.
    by rewrite scan_code_lines. }
  assert (Hcl : closed =
                mkState ((opening +:+ unlines "010" body) +:+
                         ("</code></pre>" +:+ nl)) toc0 false false lang [] ∅).
  { subst closed. rewrite app_comm_cons, scan_snoc. fold unclosed.
    by rewrite Hun. }
  rewrite Hun, Hcl. unfold flush_table_at_end. simpl.
  split_and!; try done. by rewrite !sapp_assoc.
Qed.

Lemma code_block_rendered_witness :
  flush_table_at_end
    (scan ["```c"; "# include <x>"; "a | b"] (initial_state [])) =
  "<pre><code class=" +:+ dq +:+ "language-c" +:+ dq +:+ ">" +:+ nl +:+
  "# include <x>" +:+ nl +:+ "a | b" +:+ nl.
Proof.
  destruct (code_block_rendered "c" ["# include <x>"; "a | b"] [])
    as (H & _); [reflexivity|repeat constructor|].
  etrans; [exact H|]. reflexivity.
Defined.

(** ** The command line, again *)

Lemma path_flag_cases f :
  is_path_flag f = true →
  f = "-m" ∨ f = "--markdown" ∨ f = "-o" ∨ f = "--output".
Proof.
  unfold is_path_flag, str_eqb. rewrite !orb_true_iff, !bool_decide_eq_true.
  tauto.
Qed.

Lemma parse_loop_scanned pre rest m o :
  scanned pre →
  ∃ m' o', parse_loop (pre ++ rest) m o = parse_loop rest m' o'.
Proof.
  intros Hpre. revert m o.
  induction Hpre as [|a l Hh Hp _ IH|f v l Hf _ IH]; intros m o.
  - by exists m, o.
  - destruct (IH m o) as (m' & o' & Hl). exists m', o'. rewrite <- Hl.
    unfold is_help_flag in Hh. unfold is_path_flag in Hp.
    apply orb_false_iff in Hp as [Hp Ho2]. apply orb_false_iff in Hp as [Hp Ho1].
    apply orb_false_iff in Hp as [Hm1 Hm2].
    rewrite <- app_comm_cons. simpl. rewrite Hh, Hm1, Hm2, Ho1, Ho2. simpl.
    by destruct (l ++ rest).
  - destruct (path_flag_cases f Hf) as [-> | [-> | [-> | ->]]].
    + destruct (IH v o) as (m' & o' & Hl). by exists m', o'.
    + destruct (IH v o) as (m' & o' & Hl). by exists m', o'.
    + destruct (IH m v) as (m' & o' & Hl). by exists m', o'.
    + destruct (IH m v) as (m' & o' & Hl). by exists m', o'.
Qed.

(** X23.  The help flag wins and fails: when [-h] or [--help] comes after
    arguments that are no flags or path flags with their values
    (complete command lines included), the run prints the usage text to
    standard output, nothing to the error stream, reads and writes no
    file, and exits with status 1. *)
Theorem help_flag_exits_with_failure
    (fs_exists : string → option bool) (read_file : string → read_result)
    (create_directories can_write stores : string → bool)
    (parent_path : string → string)
    (path_append : string → string → string) (css js : string)
    (prog h : string) (pre rest : list string) :
  scanned pre → is_help_flag h = true →
  main fs_exists read_file create_directories can_write stores parent_path
    path_append css js (prog :: pre ++ h :: rest) =
  mkOutcome (Exit 1) show_help "" [].
Proof.
  intros Hpre Hh. unfold main, parse_args. simpl tail.
  destruct (parse_loop_scanned pre (h :: rest) "" "" Hpre) as (m & o & ->).
  simpl. unfold is_help_flag in Hh. by rewrite Hh.
Qed.

Lemma help_flag_exits_with_failure_witness :
  main (λ _, Some true) (λ _, Contents "# T") (λ _, true) (λ _, true)
    (λ _, true) (λ p, p) (λ d f, d +:+ "/" +:+ f) "" ""
    ["m2h"; "-m"; "in.md"; "extra"; "-o"; "out.html"; "--help"] =
  mkOutcome (Exit 1) show_help "" [].
Proof.
  apply (help_flag_exits_with_failure _ _ _ _ _ _ _ "" "" "m2h" "--help"
           ["-m"; "in.md"; "extra"; "-o"; "out.html"] []); [|reflexivity].
  apply scanned_pair; [reflexivity|].
  apply scanned_other; [reflexivity..|].
  apply scanned_pair; [reflexivity|]. constructor.
Defined.

(** X24.  The argument after a path flag is its value, whatever it
    spells, and the last value given wins: when [-m]/[--markdown]
    (or [-o]/[--output]) stands after arguments that are no flags or
    path flags with their values, and neither a help flag nor the same
    flag comes after its value, the input path (or the output path) is
    the argument that follows the flag, even when this argument is
    empty or spells a flag. *)
Theorem last_path_flag_wins (prog f v : string) (pre post : list string) :
  scanned pre → has_flag "-h" "--help" post = false →
  let args := parse_args (prog :: pre ++ f :: v :: post) in
  (str_eqb f "-m" || str_eqb f "--markdown" = true →
   has_flag "-m" "--markdown" post = false → markdown_path args = v) ∧
  (str_eqb f "-o" || str_eqb f "--output" = true →
   has_flag "-o" "--output" post = false → output_path args = v).
Proof.
  intros Hpre Hhelp args. subst args. unfold parse_args. simpl tail.
  destruct (parse_loop_scanned pre (f :: v :: post) "" "" Hpre)
    as (m & o & ->).
  split; intros Hf Hpost.
  - assert (parse_loop (f :: v :: post) m o = parse_loop post v o) as ->.
    { simpl. rewrite Hf.
      apply orb_true_iff in Hf as [Hf|Hf];
        apply bool_decide_eq_true in Hf as ->; reflexivity. }
    destruct (parse_loop post v o) as [[b m'] o'] eqn:Hloop.
    apply (parse_loop_keeps_markdown _ _ _ _ _ _ Hpost) in Hloop as ->.
    by repeat case_match.
  - assert (parse_loop (f :: v :: post) m o = parse_loop post m v) as ->.
    { simpl. rewrite Hf.
      apply orb_true_iff in Hf as [Hf|Hf];
        apply bool_decide_eq_true in Hf as ->; reflexivity. }
    destruct (parse_loop post m v) as [[b m'] o'] eqn:Hloop.
    apply (parse_loop_keeps_output _ _ _ _ _ _ Hpost) in Hloop as ->.
    by repeat case_match.
Qed.

Lemma last_path_flag_wins_witness :
  markdown_path
    (parse_args ["m2h"; "-m"; "old.md"; "--markdown"; "--help"; "-o"; "x"]) =
  "--help".
Proof.
  destruct (last_path_flag_wins "m2h" "--markdown" "--help" ["-m"; "old.md"]
              ["-o"; "x"]) as [H _]; [|reflexivity|].
  - apply scanned_pair; [reflexivity|constructor].
  - exact (H eq_refl eq_refl).
Defined.

(** ** What a run leaves behind *)

Lemma sapp_literal_nonempty c s t : String c s +:+ t ≠ "".
Proof. by rewrite sapp_cons. Qed.

(** X25.  A run ends in one of three ways.  With status 0: the input
    was read and then the page rendered from its text, the stylesheet
    and the script were sent to their three files, in this order, the
    output directory being created before when it did not exist, and
    nothing went to the error stream.  With status 1: the reason is on
    the error stream or the usage text on standard output, and at most
    two files were written, which stay in place.  By an abort: when
    [fs::exists], the reading of the input or [fs::create_directories]
    throws, before anything is written to a file or to a stream.
    Whether a stream stored what was sent to it is never looked at:
    status and messages are the same whatever the streams stored, so
    that a run can end with status 0 and have stored nothing. *)
Theorem main_outcome
    (fs_exists : string → option bool) (read_file : string → read_result)
    (create_directories can_write stores : string → bool)
    (parent_path : string → string)
    (path_append : string → string → string) (css js : string)
    (argv : list string) :
  let o := main fs_exists read_file create_directories can_write stores
             parent_path path_append css js argv in
  let input := markdown_path (parse_args argv) in
  let output := output_path (parse_args argv) in
  let dir := parent_path output in
  let css_path := path_append dir "styles.css" in
  let js_path := path_append dir "script.js" in
  let made :=
    if Str.empty dir then []
    else match fs_exists dir with
         | Some false => [CreateDirectories dir true]
         | _ => []
         end in
  (status o = Exit 0 →
   ∃ md, read_file input = Contents md ∧ cerr o = "" ∧
         effects o =
           ReadFile input :: made ++
           [WriteFile output (render_page md) (stores output);
            WriteFile css_path css (stores css_path);
            WriteFile js_path js (stores js_path)]) ∧
  (status o = Exit 1 →
   (cerr o ≠ "" ∨ cout o = show_help) ∧
   (length (written (effects o)) ≤ 2)%nat) ∧
  (status o = Abort →
   cout o = "" ∧ cerr o = "" ∧ written (effects o) = [] ∧
   (fs_exists input = None ∨ read_file input = ReadThrows ∨
    (Str.empty dir = false ∧
     (fs_exists dir = None ∨
      (fs_exists dir = Some false ∧ create_directories dir = false))))) ∧
  (status o = Exit 0 ∨ status o = Exit 1 ∨ status o = Abort) ∧
  (∀ stores' : string → bool,
     let o' := main fs_exists read_file create_directories can_write stores'
                 parent_path path_append css js argv in
     status o' = status o ∧ cout o' = cout o ∧ cerr o' = cerr o).
Proof.
  intros o input output dir css_path js_path made.
  assert (Hparse : parse_ok (parse_args argv) = false →
    parse_cerr (parse_args argv) ≠ "" ∨ parse_cout (parse_args argv) = show_help).
  { unfold parse_args. repeat case_match; simpl; auto. }
  assert (Hwrite : ∀ before,
    written before = [] →
    let w := write_files can_write stores path_append css js output dir in
    ∀ page,
    (status (w page before) = Exit 0 →
     cerr (w page before) = "" ∧
     effects (w page before) =
       before ++ [WriteFile output page (stores output);
                  WriteFile css_path css (stores css_path);
                  WriteFile js_path js (stores js_path)]) ∧
    (status (w page before) = Exit 1 →
     cerr (w page before) ≠ "" ∧
     (length (written (effects (w page before))) ≤ 2)%nat) ∧
    status (w page before) ≠ Abort ∧
    (∀ stores' before',
       let w' := write_files can_write stores' path_append css js output dir
                   page before' in
       status w' = status (w page before) ∧ cout w' = cout (w page before) ∧
       cerr w' = cerr (w page before))).
  { intros before Hbefore w page. subst w. unfold write_files.
    fold css_path js_path. unfold written in *.
    repeat case_match; simpl; split_and!; try done; intros _;
      (split; [try done; unfold write_error; apply sapp_literal_nonempty|]);
      rewrite ?omap_app, ?Hbefore; simpl; lia. }
  subst o. unfold main. fold input output. fold dir.
  destruct (parse_ok (parse_args argv)) eqn:Hok; simpl.
  2:{ split_and!; try done; auto 10;
        try (intros _; split; [auto|simpl; lia]). }
  destruct (fs_exists input) as [[|]|] eqn:Hin; simpl.
  3:{ split_and!; try done; auto 10. }
  2:{ split_and!; try done; auto 10;
        try (intros _; split; [left; apply sapp_literal_nonempty|simpl; lia]). }
  destruct (read_file input) as [| |md] eqn:Hread; simpl.
  1:{ split_and!; try done; auto 10;
        try (intros _; split; [left; apply sapp_literal_nonempty|simpl; lia]). }
  1:{ split_and!; try done; auto 10. }
  assert (Hfinish : ∀ before,
    written before = [] → before = ReadFile input :: made →
    let r := write_files can_write stores path_append css js output dir
               (render_page md) before in
    (status r = Exit 0 →
     ∃ md0, Contents md = Contents md0 ∧ cerr r = "" ∧
            effects r =
              ReadFile input :: made ++
              [WriteFile output (render_page md0) (stores output);
               WriteFile css_path css (stores css_path);
               WriteFile js_path js (stores js_path)]) ∧
    (status r = Exit 1 →
     (cerr r ≠ "" ∨ cout r = show_help) ∧
     (length (written (effects r)) ≤ 2)%nat) ∧
    (status r = Abort →
     cout r = "" ∧ cerr r = "" ∧ written (effects r) = [] ∧
     (Some true = None ∨ Contents md = ReadThrows ∨
      (Str.empty dir = false ∧
       (fs_exists dir = None ∨
        (fs_exists dir = Some false ∧ create_directories dir = false))))) ∧
    (status r = Exit 0 ∨ status r = Exit 1 ∨ status r = Abort) ∧
    (∀ stores' : string → bool,
       let r' := write_files can_write stores' path_append css js output dir
                   (render_page md) before in
       status r' = status r ∧ cout r' = cout r ∧ cerr r' = cerr r)).
  { intros before Hbefore Heq r.
    destruct (Hwrite before Hbefore (render_page md)) as (H0 & H1 & HA & Hs).
    fold r in H0, H1, HA. split_and!.
    - intros H. destruct (H0 H) as [He Heff]. exists md.
      split_and!; [done|done|]. rewrite Heff, Heq. by rewrite <- app_comm_cons.
    - intros H. destruct (H1 H). auto.
    - done.
    - destruct (status r) as [code|] eqn:E; [|done].
      subst r. unfold write_files in E. repeat case_match; simplify_eq; auto.
    - intros stores'. apply Hs. }
  subst made.
  destruct (Str.empty dir) eqn:Hdir.
  { by apply Hfinish. }
  destruct (fs_exists dir) as [[|]|] eqn:Hex.
  - by apply Hfinish.
  - destruct (create_directories dir) eqn:Hmk.
    + by apply Hfinish.
    + simpl. split_and!; try done; auto 10.
  - simpl. split_and!; try done; auto 10.
Qed.

Lemma main_outcome_witness :
  let o := main (λ p, Some (bool_decide (p = "in.md"))) (λ _, Contents "# T")
             (λ _, true) (λ _, true) (λ _, false) (λ _, "site")
             (λ d f, d +:+ "/" +:+ f) "css" "js"
             ["m2h"; "-o"; "site/out.html"; "--markdown"; "in.md"] in
  status o = Exit 0 ∧
  effects o =
    [ReadFile "in.md"; CreateDirectories "site" true;
     WriteFile "site/out.html" (render_page "# T") false;
     WriteFile "site/styles.css" "css" false;
     WriteFile "site/script.js" "js" false].
Proof.
  intros o. split; [reflexivity|].
  destruct (main_outcome (λ p, Some (bool_decide (p = "in.md")))
              (λ _, Contents "# T") (λ _, true) (λ _, true) (λ _, false)
              (λ _, "site") (λ d f, d +:+ "/" +:+ f) "css" "js"
              ["m2h"; "-o"; "site/out.html"; "--markdown"; "in.md"])
    as [H _].
  destruct (H eq_refl) as (md & Hmd & _ & Heff).
  injection Hmd as <-. exact Heff.
Defined.
